(** * Pairwise-distance edge reconstruction ([euclidean_distance_model])

    A shallow embedding of the function [euclidean_distance_model] of
    [Network_Analysis2.ipynb] (section 2.3 of the notebook) together with
    the Python and networkx primitives it calls, and the properties of the
    reconstruction that the specification states.

    - Python [int] is [Z]; a coordinate is a [numpy.float64], as
      [np.loadtxt] gives it: the kernel's IEEE-754 binary64 type [float],
      with its correctly rounded [-], [+] and square root.  The square
      [x ** 2] is the power function of the C library, which need not round
      correctly: it is a parameter ([Square]).
    - [pos_dict] is a Python [dict]: an association list in insertion order
      whose keys are pairwise distinct.
    - [G] is a [networkx.Graph], a mutable object; the function mutates it in
      place and returns the same object.  The two objects the function
      receives live in a [heap], and the function is a computation in a
      state-and-exception monad over that heap: what was written before an
      exception is raised stays written. *)

From Stdlib Require Import String Ascii.
From Stdlib Require Import ZArith List Lia Bool Permutation Sorted.
From Stdlib Require Import Floats.
Import ListNotations.

Local Open Scope Z_scope.

(** ** Python values *)

Definition node := Z.
Definition coord := (float * float)%type.

(** [pos_dict = {int(row[0]): (row[1], row[2]) for row in pos}] *)
Definition pos_dict := list (node * coord).

Definition keys (d : pos_dict) : list node := map fst d.

(** The invariant of a [dict]: no key occurs twice. *)
Definition well_formed (d : pos_dict) : Prop := NoDup (keys d).

Fixpoint lookup (k : node) (d : pos_dict) : option coord :=
  match d with
  | [] => None
  | (k', c) :: d' => if Z.eqb k k' then Some c else lookup k d'
  end.

Module Py.

(** [itertools.combinations(l, 2)]: the pairs [(l[i], l[j])], [i < j], in
    lexicographic order of the positions. *)
Fixpoint combinations2 {A : Type} (l : list A) : list (A * A) :=
  match l with
  | [] => []
  | x :: r => map (pair x) r ++ combinations2 r
  end.

(** [list.sort(key=...)]: a stable ascending sort that compares keys with
    [<] only.  An element moves past another one only when the latter's
    key is strictly smaller, so elements with equal keys keep their order.
    Whatever [<] does on the keys, the result is a rearrangement of the
    list, as that of Python's sort is; when [<] orders the keys
    consistently, it is the one stable ascending rearrangement, and the very
    list that Python's sort gives.  When it does not (a NaN among the keys)
    the two sorts may arrange the list differently: what is proved below
    about the order of the result is proved for keys without NaN. *)
Section Sort.
Context {A K : Type} (ltb : K -> K -> bool) (key : A -> K).

Fixpoint insert (x : A) (s : list A) : list A :=
  match s with
  | [] => [x]
  | y :: s' => if ltb (key y) (key x) then y :: insert x s' else x :: s
  end.

Definition sort (l : list A) : list A := fold_right insert [] l.

(** [ordered x y]: [y] may stand after [x] in an ascending list. *)
Definition ordered (x y : A) : Prop := ltb (key y) (key x) = false.
End Sort.

(** [range(n)] *)
Definition range (n : Z) : list Z := map Z.of_nat (seq 0 (Z.to_nat n)).

(** [l[i]] on a list: negative indices count from the end; [None] stands
    for [IndexError]. *)
Definition getitem {A : Type} (l : list A) (i : Z) : option A :=
  let len := Z.of_nat (length l) in
  if i <? 0 then
    if len + i <? 0 then None else nth_error l (Z.to_nat (len + i))
  else nth_error l (Z.to_nat i).

End Py.

(** ** networkx.Graph

    An undirected graph without parallel edges, as the library documents it:
    a collection of nodes and a collection of unordered pairs of nodes, both
    kept here in insertion order.  Graphs of the notebook carry no
    attributes ([load_network] calls [add_node] and [add_edge] without
    any). *)
Module Nx.

Record Graph := mkGraph {
  nodes : list node;
  edges : list (node * node)
}.

Definition has_node (G : Graph) (n : node) : bool :=
  existsb (Z.eqb n) (nodes G).

Definition same_edge (e e' : node * node) : bool :=
  (Z.eqb (fst e) (fst e') && Z.eqb (snd e) (snd e'))
  || (Z.eqb (fst e) (snd e') && Z.eqb (snd e) (fst e')).

(** [G.has_edge(u, v)] *)
Definition has_edge (G : Graph) (u v : node) : bool :=
  existsb (same_edge (u, v)) (edges G).

Definition add_node (G : Graph) (n : node) : Graph :=
  if has_node G n then G else mkGraph (nodes G ++ [n]) (edges G).

(** [G.add_edge(u, v)]: "the nodes u and v will be automatically added if
    they are not already in the graph"; adding an edge that is already
    there leaves the edges as they are. *)
Definition add_edge (G : Graph) (u v : node) : Graph :=
  let G1 := add_node (add_node G u) v in
  if has_edge G1 u v then G1 else mkGraph (nodes G1) (edges G1 ++ [(u, v)]).

(** [G.clear_edges()] *)
Definition clear_edges (G : Graph) : Graph := mkGraph (nodes G) [].

(** [G.number_of_edges()] *)
Definition number_of_edges (G : Graph) : Z := Z.of_nat (length (edges G)).

End Nx.

(** ** The heap and the monad *)

Record heap := mkHeap {
  hG : Nx.Graph;      (* the object bound to [G] *)
  hpos : pos_dict     (* the object bound to [pos_dict] *)
}.

(** The exceptions of the builtins that the code can meet.  There is no
    [OverflowError]: arithmetic on [numpy.float64] overflows to an infinity
    (with a warning), where [**] on a plain Python [float] would raise. *)
Inductive exn := KeyError (k : node) | IndexError | ValueError.

Inductive result (A : Type) :=
| Ok (a : A)
| Raise (e : exn).
Arguments Ok {A} a.
Arguments Raise {A} e.

Definition M (A : Type) : Type := heap -> result A * heap.

Definition ret {A} (a : A) : M A := fun h => (Ok a, h).

Definition bind {A B} (m : M A) (f : A -> M B) : M B :=
  fun h => match m h with
           | (Ok a, h') => f a h'
           | (Raise e, h') => (Raise e, h')
           end.

Definition raise {A} (e : exn) : M A := fun h => (Raise e, h).

Notation "x <- m ;; k" := (bind m (fun x => k))
  (at level 61, m at next level, right associativity).
Notation "m ;;; k" := (bind m (fun _ => k))
  (at level 61, right associativity).

(** [for x in l: body(x)] *)
Fixpoint for_each {A} (l : list A) (body : A -> M unit) : M unit :=
  match l with
  | [] => ret tt
  | x :: l' => body x ;;; for_each l' body
  end.

(** [acc = init; for x in l: acc = body(acc, x)] *)
Fixpoint for_fold {A B} (l : list A) (body : B -> A -> M B) (acc : B) : M B :=
  match l with
  | [] => ret acc
  | x :: l' => acc' <- body acc x ;; for_fold l' body acc'
  end.

(** [list(pos_dict.keys())] *)
Definition dict_keys : M (list node) := fun h => (Ok (keys (hpos h)), h).

(** [pos_dict[k]] *)
Definition dict_getitem (k : node) : M coord :=
  fun h => match lookup k (hpos h) with
           | Some c => (Ok c, h)
           | None => (Raise (KeyError k), h)
           end.

(** [l[i]] *)
Definition list_getitem {A} (l : list A) (i : Z) : M A :=
  match Py.getitem l i with
  | Some a => ret a
  | None => raise IndexError
  end.

(** [G.add_edge(u, v)] *)
Definition G_add_edge (u v : node) : M unit :=
  fun h => (Ok tt, mkHeap (Nx.add_edge (hG h) u v) (hpos h)).

(** The value of the name [G]: the graph object as it is now. *)
Definition read_G : M Nx.Graph := fun h => (Ok (hG h), h).

(** ** Classes of binary64 values, on their specification *)

Definition sf_nan (x : spec_float) : bool :=
  match x with S754_nan => true | _ => false end.

(** Zero or a finite number. *)
Definition sf_finite (x : spec_float) : bool :=
  match x with S754_zero _ | S754_finite _ _ _ => true | _ => false end.

(** A number or an infinity, of sign [s]. *)
Definition sf_signed (s : bool) (x : spec_float) : bool :=
  match x with
  | S754_zero s' | S754_infinity s' | S754_finite s' _ _ => Bool.eqb s s'
  | S754_nan => false
  end.

(** Equal up to the sign. *)
Definition same_magnitude (a b : spec_float) : Prop := a = b \/ a = SFopp b.

(** ** The reconstructor *)

(** [x ** 2] on a [numpy.float64], which [np.loadtxt] makes the coordinates:
    the power function of the C library at the exponent 2.  It raises
    nothing (an overflow gives an infinity, where the same expression on a
    plain Python [float] would raise [OverflowError]), and its result is
    not always the correctly rounded product [x * x].  What the library
    returns is therefore a parameter of the development, with the three
    properties of it that are used here: the result is NaN, or a number or
    an infinity of sign + (the exponent is even); it is NaN for NaN only;
    and [x] and [-x] have the same square (for an integer exponent the
    library takes the power of the magnitude and then sets the sign). *)
Class Square := {
  pow2 : float -> float;
  pow2_sign : forall x,
    sf_nan (Prim2SF (pow2 x)) = true \/ sf_signed false (Prim2SF (pow2 x)) = true;
  pow2_number : forall x,
    sf_nan (Prim2SF x) = false -> sf_nan (Prim2SF (pow2 x)) = false;
  pow2_even : forall x, pow2 (- x)%float = pow2 x
}.

Section Reconstructor.
Context {square : Square}.

(** [math.sqrt(x)]: the correctly rounded root, and "math domain error" when
    the root is not a number although [x] is one (a negative [x]). *)
Definition math_sqrt (x : float) : M float :=
  let r := PrimFloat.sqrt x in
  if is_nan r && negb (is_nan x) then raise ValueError else ret r.

(** The value of [math.sqrt((x2 - x1)**2 + (y2 - y1)**2)] when it raises
    nothing. *)
Definition euclidean_distance (x1 y1 x2 y2 : float) : float :=
  PrimFloat.sqrt (pow2 (x2 - x1) + pow2 (y2 - y1))%float.

Definition entry := (float * node * node)%type.

(** [lambda x: x[0]] *)
Definition key0 (x : entry) : float := fst (fst x).

(** [(u, v) for (d, u, v) in distance_list] *)
Definition drop_distance (x : entry) : node * node := (snd (fst x), snd x).

Definition euclidean_distance_model (n_edges : Z) : M Nx.Graph :=
  nodes <- dict_keys ;;
  let pairs := Py.combinations2 nodes in
  distance_list <-
    for_fold pairs
      (fun distance_list '(u, v) =>
         p1 <- dict_getitem u ;;
         p2 <- dict_getitem v ;;
         let '(x1, y1) := p1 in
         let '(x2, y2) := p2 in
         distance <- math_sqrt (pow2 (x2 - x1) + pow2 (y2 - y1))%float ;;
         ret (distance_list ++ [(distance, u, v)]))
      [] ;;
  let distance_list := Py.sort PrimFloat.ltb key0 distance_list in
  let ordered_pairs := map drop_distance distance_list in
  for_each (Py.range n_edges)
    (fun i =>
       a <- list_getitem ordered_pairs i ;;
       b <- list_getitem ordered_pairs i ;;
       G_add_edge (fst a) (snd b)) ;;;
  read_G.

(** A call [euclidean_distance_model(G, pos_dict, n_edges)]: what it returns
    or raises, and the heap it leaves. *)
Definition call (G : Nx.Graph) (d : pos_dict) (n_edges : Z)
  : result Nx.Graph * heap :=
  euclidean_distance_model n_edges (mkHeap G d).

(** ** The reconstruction as a function of the inputs

    What the body of [euclidean_distance_model] computes, written without
    the heap; [call_eq] below proves that the code computes exactly this. *)

(** The distance the code computes for the pair [(u, v)]. *)
Definition pair_distance (d : pos_dict) (u v : node) : option float :=
  match lookup u d, lookup v d with
  | Some (x1, y1), Some (x2, y2) => Some (euclidean_distance x1 y1 x2 y2)
  | _, _ => None
  end.

(** The entry appended for the pair [p]; the default is never reached for
    keys of [d]. *)
Definition entry_of (d : pos_dict) (p : node * node) : entry :=
  match pair_distance d (fst p) (snd p) with
  | Some x => (x, fst p, snd p)
  | None => (nan, fst p, snd p)
  end.

Definition candidate_pairs (d : pos_dict) : list (node * node) :=
  Py.combinations2 (keys d).

Definition distance_list (d : pos_dict) : list entry :=
  map (entry_of d) (candidate_pairs d).

Definition sorted_list (d : pos_dict) : list entry :=
  Py.sort PrimFloat.ltb key0 (distance_list d).

Definition ordered_pairs (d : pos_dict) : list (node * node) :=
  map drop_distance (sorted_list d).

(** [for p in l: G.add_edge(p[0], p[1])] *)
Definition add_edges (G : Nx.Graph) (l : list (node * node)) : Nx.Graph :=
  fold_left (fun g p => Nx.add_edge g (fst p) (snd p)) l G.

(** N * (N - 1) / 2 for the N entries of the mapping. *)
Definition total_pairs (d : pos_dict) : Z :=
  let N := Z.of_nat (length d) in N * (N - 1) / 2.

Definition edgeless (G : Nx.Graph) : Prop := Nx.edges G = [].

(** Every distance the code computes is a number (not NaN), so that [<]
    orders the sort keys. *)
Definition numeric_distances (d : pos_dict) : bool :=
  forallb (fun x => negb (is_nan (key0 x))) (distance_list d).

(** A list of pairs is simple when no pair occurs twice, in either
    orientation; a pair [(u, u)] would be its own reverse. *)
Definition simple (l : list (node * node)) : Prop :=
  NoDup l /\ forall u v, In (u, v) l -> ~ In (v, u) l.

(** The graph the call leaves in the heap. *)
Definition final_graph (G : Nx.Graph) (d : pos_dict) (n_edges : Z) : Nx.Graph :=
  hG (snd (call G d n_edges)).

(** ** The scenario of the specification: four nodes, two edges *)

(** Nodes [a], [b], [c], [e] at (0,0), (1,0), (0,1) and (10,10). *)
Definition scenario_pos (a b c e : node) : pos_dict :=
  [(a, (0, 0)%float); (b, (1, 0)%float); (c, (0, 1)%float); (e, (10, 10)%float)].

Definition pos4 : pos_dict := scenario_pos 1 2 3 4.

Definition G4 : Nx.Graph := Nx.mkGraph [1; 2; 3; 4] [].

(** The call returns the graph [G']. *)
Definition returns (G : Nx.Graph) (d : pos_dict) (n_edges : Z) (G' : Nx.Graph) : Prop :=
  fst (call G d n_edges) = Ok G'.

(** The call raises the exception [e]. *)
Definition raises (G : Nx.Graph) (d : pos_dict) (n_edges : Z) (e : exn) : Prop :=
  fst (call G d n_edges) = Raise e.

(** The coordinates are real numbers: neither NaN nor an infinity. *)
Definition real_coordinates (d : pos_dict) : bool :=
  forallb (fun e => is_finite (fst (snd e)) && is_finite (snd (snd e))) d.

(** A fresh [nx.Graph()]: no node, no edge. *)
Definition G0 : Nx.Graph := Nx.mkGraph [] [].

(** All the orders in which a list can be given. *)
Fixpoint insert_everywhere {A} (x : A) (l : list A) : list (list A) :=
  match l with
  | [] => [[x]]
  | y :: l' => (x :: l) :: map (cons y) (insert_everywhere x l')
  end.

Fixpoint permutations {A} (l : list A) : list (list A) :=
  match l with
  | [] => [[]]
  | x :: l' => flat_map (insert_everywhere x) (permutations l')
  end.

(** The entry of a pair of items of the mapping, without looking them up. *)
Definition entry_direct (pq : (node * coord) * (node * coord)) : entry :=
  (euclidean_distance (fst (snd (fst pq))) (snd (snd (fst pq)))
                      (fst (snd (snd pq))) (snd (snd (snd pq))),
   fst (fst pq), fst (snd pq)).

(** The square is the product, exactly, on the numbers of [l]. *)
Definition exact_squares (l : list float) : Prop :=
  forall x, In x l -> pow2 x = (x * x)%float.

(** The distance and the entry with the product for the square. *)
Definition product_distance (x1 y1 x2 y2 : float) : float :=
  PrimFloat.sqrt ((x2 - x1) * (x2 - x1) + (y2 - y1) * (y2 - y1))%float.

Definition product_entry (pq : (node * coord) * (node * coord)) : entry :=
  (product_distance (fst (snd (fst pq))) (snd (snd (fst pq)))
                    (fst (snd (snd pq))) (snd (snd (snd pq))),
   fst (fst pq), fst (snd pq)).

(** ** The statements of the specification that the code does not meet *)

(** "The returned edge count equals min(target_edge_count, N(N-1)/2)". *)
Definition returns_min_count (G : Nx.Graph) (d : pos_dict) (n_edges : Z) : Prop :=
  exists G', returns G d n_edges G' /\
             Nx.number_of_edges G' = Z.min n_edges (total_pairs d).

(** "Fails fast, before adding any edge": an exception, and the heap as it
    was. *)
Definition fails_fast (G : Nx.Graph) (d : pos_dict) (n_edges : Z) : Prop :=
  exists e, call G d n_edges = (Raise e, mkHeap G d).

(** "Nothing of the supplied graph other than its edge set changes", and the
    mapping is unmodified. *)
Definition only_edges_change (G : Nx.Graph) (d : pos_dict) (n_edges : Z) : Prop :=
  hpos (snd (call G d n_edges)) = d /\
  Nx.nodes (final_graph G d n_edges) = Nx.nodes G.

(** ** Distances in exact arithmetic

    The specification speaks of the Euclidean distance; the code compares
    the binary64 values it computes for it.  For coordinates that are
    integers the square of the distance is an integer, and the exact order
    of two distances is the order of these integers. *)

(** The integer that [x] holds, when it holds one. *)
Definition float_integer (x : float) : option Z :=
  match Prim2SF x with
  | S754_zero _ => Some 0
  | S754_finite s m e =>
      let v := if s then Z.neg m else Z.pos m in
      if 0 <=? e then Some (v * 2 ^ e)
      else if v mod 2 ^ (- e) =? 0 then Some (v / 2 ^ (- e)) else None
  | _ => None
  end.

(** The square of the distance between [u] and [v], without rounding. *)
Definition exact_square_distance (d : pos_dict) (u v : node) : option Z :=
  match lookup u d, lookup v d with
  | Some (x1, y1), Some (x2, y2) =>
      match float_integer x1, float_integer y1, float_integer x2, float_integer y2 with
      | Some a1, Some b1, Some a2, Some b2 => Some ((a2 - a1) ^ 2 + (b2 - b1) ^ 2)
      | _, _, _, _ => None
      end
  | _, _ => None
  end.


(** "Each new edge has a distance greater than or equal to that of every
    edge included before", the distance being the exact one. *)
Definition exactly_monotone (d : pos_dict) (E1 E2 : list (node * node)) : Prop :=
  forall e e' s s',
    In e E1 -> In e' E2 -> ~ In e' E1 ->
    exact_square_distance d (fst e) (snd e) = Some s ->
    exact_square_distance d (fst e') (snd e') = Some s' -> s <= s'.

(** Three nodes: node 3 is nearer to node 1 than node 2 is, by 1 in
    2^52 + 1 on the squares, which the square root rounds away. *)
Definition pos_tie : pos_dict :=
  [(1, (0, 0)%float); (2, (67108864, 1)%float); (3, (-67108864, 0)%float)].

(** Every edge of the graph joins two of its nodes. *)
Definition closed (G : Nx.Graph) : Prop :=
  forall u v, In (u, v) (Nx.edges G) -> In u (Nx.nodes G) /\ In v (Nx.nodes G).

End Reconstructor.

(** * The other functions of the notebooks *)

(** ** Ranking nodes by centrality ([get_top_central_nodes]) *)

(** A centrality value: a Python [int] (a degree) or [float]. *)
Inductive num := PyInt (z : Z) | PyFloat (f : float).

(** The integer [(-1)^s * m]. *)
Definition signed_mantissa (s : bool) (m : positive) : Z :=
  if s then Z.neg m else Z.pos m.

(** [z < f] for an [int] and a [float]: Python compares the exact values. *)
Definition int_lt_float (z : Z) (f : float) : bool :=
  match Prim2SF f with
  | S754_nan => false
  | S754_infinity s => negb s
  | S754_zero _ => z <? 0
  | S754_finite s m e =>
      if 0 <=? e then z <? signed_mantissa s m * 2 ^ e
      else z * 2 ^ (- e) <? signed_mantissa s m
  end.

(** [f < z] *)
Definition float_lt_int (f : float) (z : Z) : bool :=
  match Prim2SF f with
  | S754_nan => false
  | S754_infinity s => s
  | S754_zero _ => 0 <? z
  | S754_finite s m e =>
      if 0 <=? e then signed_mantissa s m * 2 ^ e <? z
      else signed_mantissa s m <? z * 2 ^ (- e)
  end.

(** [a < b] on numbers *)
Definition num_lt (a b : num) : bool :=
  match a, b with
  | PyInt x, PyInt y => x <? y
  | PyFloat x, PyFloat y => PrimFloat.ltb x y
  | PyInt x, PyFloat y => int_lt_float x y
  | PyFloat x, PyInt y => float_lt_int x y
  end.

(** A dict [node -> value], as [values.items()] lists it. *)
Definition values_dict := list (node * num).

(** [{'betweenness': ..., 'degree': ..., 'eigenvector': ...}] *)
Definition centrality_dict := list (string * values_dict).

(** [sorted(l, key=key, reverse=True)]: the list is reversed, sorted
    ascending and stably, and reversed again, so that equal keys keep the
    order they had in [l].  As for [Py.sort], the order of the result is
    that of Python's when [<] orders the keys (no NaN among them). *)
Definition sorted_reverse {A K : Type} (ltb : K -> K -> bool) (key : A -> K)
    (l : list A) : list A :=
  rev (Py.sort ltb key (rev l)).

(** [l[:k]]: a negative [k] counts from the end. *)
Definition slice_to {A : Type} (l : list A) (k : Z) : list A :=
  if k <? 0 then firstn (Z.to_nat (Z.of_nat (length l) + k)) l
  else firstn (Z.to_nat k) l.

(** [d[k] = v] on a dict with string keys: an existing key keeps its place. *)
Fixpoint dict_set {V : Type} (k : string) (v : V) (d : list (string * V))
  : list (string * V) :=
  match d with
  | [] => [(k, v)]
  | (k', v') :: d' =>
      if String.eqb k k' then (k, v) :: d' else (k', v') :: dict_set k v d'
  end.

(** [d.get(k)] *)
Fixpoint dict_get {V : Type} (k : string) (d : list (string * V)) : option V :=
  match d with
  | [] => None
  | (k', v) :: d' => if String.eqb k k' then Some v else dict_get k d'
  end.

(** [[node for node, _ in sorted(values.items(), key=lambda x: x[1],
    reverse=True)[:top_n]]] *)
Definition top_of (values : values_dict) (top_n : Z) : list node :=
  let sorted_nodes := sorted_reverse num_lt snd values in
  map fst (slice_to sorted_nodes top_n).

Definition get_top_central_nodes (cd : centrality_dict) (top_n : Z)
  : list (string * list node) :=
  fold_left
    (fun top_nodes '(metric, values) => dict_set metric (top_of values top_n) top_nodes)
    cd [].

(** The default [top_n=5]. *)
Definition default_top_n : Z := 5.

(** The value [values[k]] *)
Fixpoint value_of (k : node) (values : values_dict) : option num :=
  match values with
  | [] => None
  | (k', v) :: d' => if Z.eqb k k' then Some v else value_of k d'
  end.

(** The values of one metric can be ordered: all are [int]s, or all are
    [float]s and none is NaN. *)
Definition comparable (values : values_dict) : bool :=
  forallb (fun kv => match snd kv with PyInt _ => true | PyFloat _ => false end) values
  || forallb (fun kv => match snd kv with PyInt _ => false | PyFloat f => negb (is_nan f) end)
       values.

(** [a] stands before [b] in the list. *)
Definition precedes {A : Type} (a b : A) (l : list A) : Prop :=
  exists l1 l2, l = l1 ++ a :: l2 /\ In b l2.

Definition example_centralities : centrality_dict :=
  [("betweenness"%string, [(1, PyFloat 0.5); (2, PyFloat 0); (3, PyFloat 0.5); (4, PyFloat 0.25)]);
   ("degree"%string, [(1, PyInt 2); (2, PyInt 1); (3, PyInt 2); (4, PyInt 3)])].

(** ** The degree distribution ([plot_degree_distribution]) *)

(** A [collections.Counter] over integers: a dict from element to count. *)
Definition counter := list (Z * Z).

(** [c.get(x, default)] *)
Fixpoint counter_get (c : counter) (x default : Z) : Z :=
  match c with
  | [] => default
  | (k, v) :: c' => if Z.eqb x k then v else counter_get c' x default
  end.

(** [c[x] = v] *)
Fixpoint counter_set (x v : Z) (c : counter) : counter :=
  match c with
  | [] => [(x, v)]
  | (k, v') :: c' => if Z.eqb x k then (x, v) :: c' else (k, v') :: counter_set x v c'
  end.

(** [Counter(iterable)]: [for elem in iterable: self[elem] = self.get(elem, 0) + 1] *)
Definition Counter (l : list Z) : counter :=
  fold_left (fun c elem => counter_set elem (counter_get c elem 0 + 1) c) l [].

(** [min(l)] and [max(l)]; [None] stands for the [ValueError] on an empty
    sequence. *)
Definition py_min (l : list Z) : option Z :=
  match l with
  | [] => None
  | x :: r => Some (fold_left Z.min r x)
  end.

Definition py_max (l : list Z) : option Z :=
  match l with
  | [] => None
  | x :: r => Some (fold_left Z.max r x)
  end.

(** [list(range(a, b))] *)
Definition range2 (a b : Z) : list Z :=
  map (fun i => a + Z.of_nat i) (seq 0 (Z.to_nat (b - a))).

(** [sum(l)] *)
Definition py_sum (l : list Z) : Z := fold_left Z.add l 0.

(** What [plot_degree_distribution] draws: both panels scatter the same
    two lists, [degree] against [degree_count]; the right panel has
    logarithmic axes.  The function returns nothing; its result here is the
    data it hands to [scatter], or the exception it raises before drawing. *)
Definition plot_degree_distribution (degree_sequence : list Z) (net_name : string)
  : result (list Z * list Z) :=
  let degree_counts := Counter degree_sequence in
  match py_min degree_sequence with
  | None => Raise ValueError
  | Some min_degree =>
      match py_max degree_sequence with
      | None => Raise ValueError
      | Some max_degree =>
          let degree := range2 min_degree (max_degree + 1) in
          let degree_count := map (fun x => counter_get degree_counts x 0) degree in
          Ok (degree, degree_count)
      end
  end.

(** The number of times [k] occurs in [l]. *)
Definition occurrences (l : list Z) (k : Z) : Z :=
  Z.of_nat (count_occ Z.eq_dec l k).

(** [sum(d * c for d, c in zip(degree, degree_count))] *)
Definition weighted_sum (degree degree_count : list Z) : Z :=
  py_sum (map (fun dc => fst dc * snd dc) (combine degree degree_count)).

(** ** Reading a network file ([load_network] of the first notebook) *)

(** How a call ends: it returns, it raises an exception of the builtins,
    [open] finds no file, or the call never ends. *)
Inductive outcome (A : Type) :=
| Returns (a : A)
| Fails (e : exn)
| NoSuchFile
| Hangs.
Arguments Returns {A} a.
Arguments Fails {A} e.
Arguments NoSuchFile {A}.
Arguments Hangs {A}.

(** An open text file: the lines not read yet. *)
Definition file := list string.

(** [f.readline()]: the next line, or [''] at the end of the file. *)
Definition readline (f : file) : string * file :=
  match f with
  | [] => (EmptyString, [])
  | line :: f' => (line, f')
  end.

Section LoadNetwork.

(** The builtins on strings, with whatever lexical rules they have:
    [s.split()], [s.strip()] and [int(s)] ([None] for [ValueError]). *)
Variable split : string -> list string.
Variable strip : string -> string.
Variable int_of : string -> option Z.

(** [for _ in range(n_nodes): parts = f.readline().split();
    node = int(parts[0]); G.add_node(node)] *)
Fixpoint read_vertices (n : nat) (f : file) (G : Nx.Graph)
  : outcome (Nx.Graph * file) :=
  match n with
  | O => Returns (G, f)
  | S n' =>
      let '(line, f') := readline f in
      let parts := split line in
      match Py.getitem parts 0 with
      | None => Fails IndexError
      | Some p =>
          match int_of p with
          | None => Fails ValueError
          | Some node => read_vertices n' f' (Nx.add_node G node)
          end
      end
  end.

(** [while True: line = f.readline(); if line.startswith('*vertices'): ...;
    break].  At the end of the file [readline] returns [''] for ever, and
    the loop has no other exit. *)
Fixpoint find_vertices (f : file) (G : Nx.Graph) : outcome (Nx.Graph * file) :=
  match f with
  | [] => Hangs
  | line :: f' =>
      if String.prefix "*vertices" line then
        match Py.getitem (split line) 1 with
        | None => Fails IndexError
        | Some t =>
            match int_of t with
            | None => Fails ValueError
            | Some n_nodes => read_vertices (Z.to_nat n_nodes) f' G
            end
        end
      else find_vertices f' G
  end.

(** [for line in f: ...] *)
Fixpoint read_edges (f : file) (G : Nx.Graph) : outcome Nx.Graph :=
  match f with
  | [] => Returns G
  | line :: f' =>
      if String.prefix "*edges" line then read_edges f' G
      else
        let parts := split (strip line) in
        if 2 <=? Z.of_nat (length parts) then
          match Py.getitem parts 0, Py.getitem parts 1 with
          | Some p0, Some p1 =>
              match int_of p0 with
              | None => Fails ValueError
              | Some u =>
                  match int_of p1 with
                  | None => Fails ValueError
                  | Some v => read_edges f' (Nx.add_edge G u v)
                  end
              end
          | _, _ => Fails IndexError
          end
        else read_edges f' G
  end.

(** [load_network(net_name)], the files being those of [fs]. *)
Definition load_network (fs : string -> option file) (net_name : string)
  : outcome Nx.Graph :=
  let path := ("data/" ++ net_name ++ ".net")%string in
  let G := Nx.mkGraph [] [] in
  match fs path with
  | None => NoSuchFile
  | Some f =>
      match find_vertices f G with
      | Returns (G', f') => read_edges f' G'
      | Fails e => Fails e
      | NoSuchFile => NoSuchFile
      | Hangs => Hangs
      end
  end.

(** The line names the node [k]: its first token reads as [k]. *)
Definition declares_node (line : string) (k : node) : Prop :=
  exists p rest, split line = p :: rest /\ int_of p = Some k.

(** The line is read as an edge between [u] and [v]: it does not start with
    ['*edges'] and its first two tokens read as [u] and [v]. *)
Definition declares_edge (line : string) (u v : node) : Prop :=
  String.prefix "*edges" line = false /\
  exists p0 p1 rest,
    split (strip line) = p0 :: p1 :: rest /\ int_of p0 = Some u /\ int_of p1 = Some v.

End LoadNetwork.

(** A graph as [networkx] keeps it: no node twice, every edge between
    nodes, and no edge twice, in whichever orientation. *)
Definition graph_wf (G : Nx.Graph) : Prop :=
  NoDup (Nx.nodes G) /\
  (forall u v, In (u, v) (Nx.edges G) -> In u (Nx.nodes G) /\ In v (Nx.nodes G)) /\
  NoDup (Nx.edges G) /\
  (forall u v, In (u, v) (Nx.edges G) -> u <> v -> ~ In (v, u) (Nx.edges G)).

(** *** The builtins on ASCII text *)

(** Python's whitespace among the ASCII characters: TAB, LF, VT, FF, CR,
    FS, GS, RS, US and the space. *)
Definition is_space (c : ascii) : bool :=
  let n := nat_of_ascii c in
  ((9 <=? n) && (n <=? 13) || (28 <=? n) && (n <=? 32))%nat.

(** [s.split()]: the maximal runs of characters that are not whitespace. *)
Fixpoint split_from (tok : string) (s : string) : list string :=
  match s with
  | EmptyString => match tok with EmptyString => [] | _ => [tok] end
  | String c s' =>
      if is_space c then
        match tok with
        | EmptyString => split_from EmptyString s'
        | _ => tok :: split_from EmptyString s'
        end
      else split_from (tok ++ String c EmptyString) s'
  end.

Definition ascii_split (s : string) : list string := split_from EmptyString s.

Fixpoint lstrip (s : string) : string :=
  match s with
  | String c s' => if is_space c then lstrip s' else s
  | EmptyString => EmptyString
  end.

Fixpoint string_rev (s : string) : string :=
  match s with
  | EmptyString => EmptyString
  | String c s' => (string_rev s' ++ String c EmptyString)%string
  end.

(** [s.strip()] *)
Definition ascii_strip (s : string) : string :=
  string_rev (lstrip (string_rev (lstrip s))).

Definition digit_of (c : ascii) : option Z :=
  let n := nat_of_ascii c in
  if ((48 <=? n) && (n <=? 57))%nat then Some (Z.of_nat n - 48) else None.

(** Decimal digits, single underscores allowed between them. *)
Fixpoint digits_from (acc : Z) (after_digit : bool) (s : string) : option Z :=
  match s with
  | EmptyString => if after_digit then Some acc else None
  | String c s' =>
      match digit_of c with
      | Some d => digits_from (10 * acc + d) true s'
      | None =>
          if Ascii.eqb c "_" && after_digit then digits_from acc false s' else None
      end
  end.

(** [int(s)] in base 10: surrounding whitespace, an optional sign, digits. *)
Definition ascii_int (s : string) : option Z :=
  match ascii_strip s with
  | String "-" s' => option_map Z.opp (digits_from 0 false s')
  | String "+" s' => digits_from 0 false s'
  | s' => digits_from 0 false s'
  end.

(** [load_network] on ASCII files. *)
Definition load_network_ascii : (string -> option file) -> string -> outcome Nx.Graph :=
  load_network ascii_split ascii_strip ascii_int.

Definition nl : string := String (ascii_of_nat 10) EmptyString.

(** A small file in the format of the notebook's networks. *)
Definition example_file : file :=
  ["*vertices 3" ++ nl; "1 " ++ nl; "2" ++ nl; "3" ++ nl;
   "*edges" ++ nl; "1 2" ++ nl; "2 3 0.5" ++ nl; "2 1" ++ nl]%string.

Definition example_fs (path : string) : option file :=
  if String.eqb path "data/net1.net" then Some example_file
  else if String.eqb path "data/pajek.net"
       then Some ["*Vertices 2" ++ nl; "1" ++ nl; "2" ++ nl; "*Edges" ++ nl; "1 2" ++ nl]%string
  else if String.eqb path "data/short.net"
       then Some ["*vertices 3" ++ nl; "1" ++ nl]%string
  else None.

(** ** Testing the model (section 2.4 of the notebook) *)

(** The neighbours of [n] as [G.adj[n]] lists them: in the order in which
    their edges came into the graph. *)
Definition neighbors (G : Nx.Graph) (n : node) : list node :=
  flat_map (fun e => if Z.eqb (fst e) n then [snd e]
                     else if Z.eqb (snd e) n then [fst e] else [])
           (Nx.edges G).

(** [for n, nbrs in adj.items(): for nbr in nbrs: if nbr not in seen:
    yield (n, nbr); seen[n] = 1] *)
Fixpoint edges_from (G : Nx.Graph) (seen : list node) (ns : list node)
  : list (node * node) :=
  match ns with
  | [] => []
  | n :: ns' =>
      map (pair n) (filter (fun nbr => negb (existsb (Z.eqb nbr) seen)) (neighbors G n))
      ++ edges_from G (n :: seen) ns'
  end.

(** [G.edges()]: every edge once, as a tuple that starts with the endpoint
    that comes first among the nodes. *)
Definition edge_view (G : Nx.Graph) : list (node * node) :=
  edges_from G [] (Nx.nodes G).

(** [G.copy()]: a new graph object that is given the nodes of [G] and
    then its edges, as the adjacency of [G] lists them. *)
Definition G_copy (G : Nx.Graph) : Nx.Graph := Nx.mkGraph (Nx.nodes G) (edge_view G).

Definition tuple_eqb (e e' : node * node) : bool :=
  Z.eqb (fst e) (fst e') && Z.eqb (snd e) (snd e').

(** [set(l1) == set(l2)] on lists of tuples *)
Definition set_eqb (l1 l2 : list (node * node)) : bool :=
  forallb (fun e => existsb (tuple_eqb e) l2) l1
  && forallb (fun e => existsb (tuple_eqb e) l1) l2.

(** The cells of section 2.4:
    [G_testing = G.copy(); G_testing.clear_edges();
     n_edge = G.number_of_edges();
     G_testing = euclidean_distance_model(G_testing, pos_dict, n_edge);
     print(set(G.edges()) == set(G_testing.edges()))].
    The result is the graph [G_testing] and the value printed. *)
Definition test_model {square : Square} (G : Nx.Graph) (d : pos_dict)
  : result (Nx.Graph * bool) :=
  let G_testing := Nx.clear_edges (G_copy G) in
  let n_edge := Nx.number_of_edges G in
  match fst (call G_testing d n_edge) with
  | Ok G_testing => Ok (G_testing, set_eqb (edge_view G) (edge_view G_testing))
  | Raise e => Raise e
  end.

(** Turn the pair [e] the way it stands in [l], when it stands there. *)
Definition orient (l : list (node * node)) (e : node * node) : node * node :=
  if existsb (tuple_eqb e) l then e else (snd e, fst e).

(** The graph has no edge from a node to itself, and every endpoint of an
    edge has a position. *)
Definition placed (G : Nx.Graph) (d : pos_dict) : Prop :=
  forall u v, In (u, v) (Nx.edges G) -> u <> v /\ In u (keys d) /\ In v (keys d).

Definition G_square : Nx.Graph :=
  Nx.mkGraph [4; 3; 2; 1] [(2, 1); (3, 1)].

(** Both ends of the pair are nodes, and they are joined. *)
Definition present (G : Nx.Graph) (p : node * node) : Prop :=
  In (fst p) (Nx.nodes G) /\ In (snd p) (Nx.nodes G) /\
  Nx.has_edge G (fst p) (snd p) = true.

(** * Proofs *)

(** ** [itertools.combinations] *)

Section Combinations.
Context {A : Type}.
Implicit Types (l : list A) (x u v : A).

Lemma in_combinations2 l u v :
  In (u, v) (Py.combinations2 l) -> In u l /\ In v l.
Proof.
  induction l as [|x r IH]; simpl; [tauto|].
  rewrite in_app_iff, in_map_iff.
  intros [(w & E & Hw) | H].
  - inversion E; subst. auto.
  - destruct (IH H). auto.
Qed.

Lemma combinations2_length l :
  (2 * length (Py.combinations2 l) = length l * (length l - 1))%nat.
Proof.
  induction l as [|x r IH]; simpl; [reflexivity|].
  rewrite length_app, length_map. nia.
Qed.

Lemma combinations2_NoDup l : NoDup l -> NoDup (Py.combinations2 l).
Proof.
  induction 1 as [|x r Hx Hr IH]; simpl; [constructor|].
  apply NoDup_app; auto.
  - clear -Hr. induction Hr as [|y r' Hy _ IHr]; simpl; constructor; auto.
    rewrite in_map_iff. intros (w & E & Hw). inversion E; subst. contradiction.
  - intros [u v]. rewrite in_map_iff. intros (w & E & Hw) H.
    inversion E; subst. apply in_combinations2 in H. tauto.
Qed.

Lemma combinations2_oriented l u v :
  NoDup l -> In (u, v) (Py.combinations2 l) -> ~ In (v, u) (Py.combinations2 l).
Proof.
  induction 1 as [|x r Hx Hr IH]; simpl; [tauto|].
  rewrite !in_app_iff, !in_map_iff.
  intros [(w & E & Hw) | H] [(w' & E' & Hw') | H'].
  - inversion E; inversion E'; subst. contradiction.
  - inversion E; subst. apply in_combinations2 in H'. tauto.
  - inversion E'; subst. apply in_combinations2 in H. tauto.
  - now apply IH.
Qed.

Lemma combinations2_complete l u v :
  In u l -> In v l -> u <> v ->
  In (u, v) (Py.combinations2 l) \/ In (v, u) (Py.combinations2 l).
Proof.
  induction l as [|x r IH]; simpl; [tauto|].
  rewrite !in_app_iff, !in_map_iff.
  intros [Hu | Hu] [Hv | Hv] Huv; subst.
  - contradiction.
  - left. left. eauto.
  - right. left. eauto.
  - destruct (IH Hu Hv Huv); auto.
Qed.
End Combinations.

(** ** [list.sort] *)

Section SortFacts.
Context {A K : Type} (ltb : K -> K -> bool) (key : A -> K).

Lemma insert_perm (x : A) (s : list A) :
  Permutation (Py.insert ltb key x s) (x :: s).
Proof.
  induction s as [|y s IH]; simpl; [reflexivity|].
  destruct (ltb (key y) (key x)); [|reflexivity].
  rewrite IH. apply perm_swap.
Qed.

Lemma sort_perm (l : list A) : Permutation (Py.sort ltb key l) l.
Proof.
  induction l as [|x l IH]; simpl; [reflexivity|].
  rewrite insert_perm. now constructor.
Qed.

(** The keys that [<] orders consistently with the others. *)
Variable good : K -> Prop.
Hypothesis ltb_asym : forall a b, ltb a b = true -> ltb b a = false.
Hypothesis ltb_negtrans :
  forall a b c, good b -> ltb b a = false -> ltb c b = false -> ltb c a = false.

Lemma insert_sorted (x : A) (s : list A) :
  Forall (fun y => good (key y)) s ->
  StronglySorted (Py.ordered ltb key) s ->
  StronglySorted (Py.ordered ltb key) (Py.insert ltb key x s).
Proof.
  intros Hg Hs. induction Hs as [|y s Hs IH Hy]; simpl.
  - repeat constructor.
  - inversion Hg as [|? ? Gy Gs]; subst.
    destruct (ltb (key y) (key x)) eqn:E.
    + constructor; [auto|].
      eapply Permutation_Forall; [symmetry; apply insert_perm|].
      constructor; [|assumption]. now apply ltb_asym.
    + constructor; [now constructor|].
      constructor; [exact E|].
      eapply Forall_impl; [|exact Hy].
      intros z Hz. now apply (ltb_negtrans (key x) (key y) (key z)).
Qed.

Lemma sort_sorted (l : list A) :
  Forall (fun y => good (key y)) l ->
  StronglySorted (Py.ordered ltb key) (Py.sort ltb key l).
Proof.
  induction 1 as [|x l Hx Hl IH]; simpl; [constructor|].
  apply insert_sorted; [|assumption].
  eapply Permutation_Forall; [symmetry; apply sort_perm|assumption].
Qed.
End SortFacts.

(** ** The order of binary64 numbers *)

Ltac sf_cases :=
  repeat match goal with
         | x : spec_float |- _ => destruct x
         | s : bool |- _ => destruct s
         end; simpl in *; try congruence.

Ltac cmp_cases :=
  repeat match goal with
         | H : context [Z.compare ?a ?b] |- _ =>
             destruct (Z.compare_spec a b); simpl in H
         | H : context [Pos.compare_cont _ ?a ?b] |- _ =>
             change (Pos.compare_cont Eq a b) with (Pos.compare a b) in H;
             destruct (Pos.compare_spec a b); simpl in H
         | |- context [Z.compare ?a ?b] =>
             destruct (Z.compare_spec a b); simpl
         | |- context [Pos.compare_cont _ ?a ?b] =>
             change (Pos.compare_cont Eq a b) with (Pos.compare a b);
             destruct (Pos.compare_spec a b); simpl
         end; try congruence; try lia.

Ltac distinct_keys :=
  unfold well_formed; simpl; repeat (constructor; [simpl; lia|]); constructor.

Ltac distinct_names :=
  repeat (constructor; [simpl; intuition discriminate|]); constructor.

Ltac square_wf :=
  split; [|split; [|split]]; simpl;
  [ repeat (constructor; [simpl; lia|]); constructor
  | intros u v [H | [H | []]]; inversion H; subst; auto 6
  | repeat (constructor; [simpl; intuition congruence|]); constructor
  | intros u v [H | [H | []]] _ [H' | [H' | []]]; inversion H; subst; discriminate ].

Ltac square_placed :=
  intros u v [H | [H | []]]; inversion H; subst; simpl;
  (split; [lia|split; auto 6]).

Lemma SFltb_asym x y : SFltb x y = true -> SFltb y x = false.
Proof. unfold SFltb, SFcompare. sf_cases; cmp_cases. Qed.

Lemma SFltb_negtrans x y z :
  sf_nan y = false -> SFltb y x = false -> SFltb z y = false -> SFltb z x = false.
Proof. unfold SFltb, SFcompare. sf_cases; cmp_cases. Qed.

Lemma SFleb_of_not_ltb x y :
  sf_nan x = false -> sf_nan y = false -> SFltb y x = false -> SFleb x y = true.
Proof. unfold SFltb, SFleb, SFcompare. sf_cases; cmp_cases. Qed.

Lemma is_nan_spec x : is_nan x = sf_nan (Prim2SF x).
Proof.
  unfold is_nan. rewrite eqb_spec. unfold SFeqb, SFcompare.
  destruct (Prim2SF x) as [s|s| |s m e]; try destruct s; simpl; try reflexivity;
    rewrite Z.compare_refl; change (Pos.compare_cont Eq m m) with (Pos.compare m m);
    rewrite Pos.compare_refl; reflexivity.
Qed.

Lemma float_ltb_asym (a b : float) :
  PrimFloat.ltb a b = true -> PrimFloat.ltb b a = false.
Proof. rewrite !ltb_spec. apply SFltb_asym. Qed.

Lemma float_ltb_negtrans (a b c : float) :
  is_nan b = false ->
  PrimFloat.ltb b a = false -> PrimFloat.ltb c b = false -> PrimFloat.ltb c a = false.
Proof. rewrite is_nan_spec, !ltb_spec. apply SFltb_negtrans. Qed.

(** Between numbers, "not smaller" is [>=]. *)
Lemma float_leb_of_not_ltb (a b : float) :
  is_nan a = false -> is_nan b = false ->
  PrimFloat.ltb b a = false -> PrimFloat.leb a b = true.
Proof. rewrite !is_nan_spec, ltb_spec, leb_spec. apply SFleb_of_not_ltb. Qed.

(** ** Distances are numbers *)

Section Rounding.
Variables prec emax : Z.

Lemma iter_pos_inv {A} (P : A -> Prop) (f : A -> A) :
  (forall x, P x -> P (f x)) -> forall n x, P x -> P (iter_pos f n x).
Proof. intros Hf. induction n; simpl; auto. Qed.

Lemma shr_1_nonneg mrs : 0 <= shr_m mrs -> 0 <= shr_m (shr_1 mrs).
Proof. destruct mrs as [[|[p|p|]|[p|p|]] r s]; simpl; lia. Qed.

Lemma shr_fexp_nonneg m e l :
  0 <= m -> 0 <= shr_m (fst (shr_fexp prec emax m e l)).
Proof.
  intros Hm. unfold shr_fexp, shr.
  assert (H0 : 0 <= shr_m (shr_record_of_loc m l))
    by (destruct l as [|[]]; simpl; exact Hm).
  destruct (fexp prec emax (Zdigits2 m + e) - e); simpl; try exact H0.
  apply iter_pos_inv; [apply shr_1_nonneg|exact H0].
Qed.

Lemma round_nearest_even_nonneg m l : 0 <= m -> 0 <= round_nearest_even m l.
Proof.
  intros Hm. destruct l as [|[]]; simpl; try lia.
  destruct (Z.even m); lia.
Qed.

Lemma binary_round_aux_signed s m e l :
  0 <= m -> sf_signed s (binary_round_aux prec emax s m e l) = true.
Proof.
  intros Hm. unfold binary_round_aux.
  pose proof (shr_fexp_nonneg m e l Hm) as H1.
  destruct (shr_fexp prec emax m e l) as [mrs' e']. simpl in H1.
  pose proof (shr_fexp_nonneg _ e' loc_Exact
                (round_nearest_even_nonneg _ (loc_of_shr_record mrs') H1)) as H2.
  destruct (shr_fexp prec emax _ e' loc_Exact) as [mrs'' e'']. simpl in H2.
  destruct (shr_m mrs''); [| |lia]; simpl.
  - now destruct s.
  - destruct (e'' <=? emax - prec); simpl; now destruct s.
Qed.

Lemma binary_round_signed s m e :
  sf_signed s (binary_round prec emax s m e) = true.
Proof.
  unfold binary_round. destruct (shl_align _ _ _).
  apply binary_round_aux_signed. lia.
Qed.

Lemma signed_not_nan s x : sf_signed s x = true -> sf_nan x = false.
Proof. now destruct x. Qed.

Lemma binary_normalize_not_nan m e :
  sf_nan (binary_normalize prec emax m e false) = false.
Proof.
  destruct m; simpl; [reflexivity| |];
    eapply signed_not_nan, binary_round_signed.
Qed.

Lemma SFsub_finite x y :
  sf_finite x = true -> sf_finite y = true -> sf_nan (SFsub prec emax x y) = false.
Proof.
  destruct x as [sx|sx| |sx mx ex], y as [sy|sy| |sy my ey]; try discriminate;
    intros _ _; try reflexivity.
  - now destruct sx, sy.
  - apply binary_normalize_not_nan.
Qed.

Lemma SFmul_square_signed x :
  sf_nan x = false -> sf_signed false (SFmul prec emax x x) = true.
Proof.
  destruct x as [[]|[]| |[] m e]; try discriminate; intros _; try reflexivity;
    apply binary_round_aux_signed; lia.
Qed.

Lemma SFadd_signed x y :
  sf_signed false x = true -> sf_signed false y = true ->
  sf_signed false (SFadd prec emax x y) = true.
Proof.
  destruct x as [[]|[]| |[] mx ex], y as [[]|[]| |[] my ey]; try discriminate;
    intros _ _; try reflexivity.
  unfold SFadd, cond_Zopp.
  destruct (shl_align mx ex _) as [a ?], (shl_align my ey _) as [b ?]; simpl.
  apply binary_round_signed.
Qed.

Lemma SFsqrt_core_nonneg m e :
  0 <= m -> 0 <= fst (fst (SFsqrt_core_binary prec emax m e)).
Proof.
  intros Hm. unfold SFsqrt_core_binary.
  match goal with |- context [Z.sqrtrem ?a] =>
    pose proof (Z.sqrtrem_sqrt a) as Hs; destruct (Z.sqrtrem a) as [q r] end.
  simpl in *. subst q. apply Z.sqrt_nonneg.
Qed.

Lemma SFsqrt_signed x :
  sf_signed false x = true -> sf_nan (SFsqrt prec emax x) = false.
Proof.
  destruct x as [[]|[]| |[] m e]; try discriminate; intros _; try reflexivity.
  unfold SFsqrt.
  pose proof (SFsqrt_core_nonneg (Z.pos m) e ltac:(lia)) as H.
  destruct (SFsqrt_core_binary prec emax (Z.pos m) e) as [[mz ez] lz]. simpl in H.
  eapply signed_not_nan, binary_round_aux_signed, H.
Qed.
End Rounding.

Lemma is_finite_spec x : is_finite x = true -> sf_finite (Prim2SF x) = true.
Proof.
  unfold is_finite, is_infinity. rewrite is_nan_spec, eqb_spec, abs_spec.
  change (Prim2SF infinity) with (S754_infinity false).
  destruct (Prim2SF x) as [s|s| |s m e]; simpl; try reflexivity; try discriminate.
Qed.

Lemma SFmul_square_class prec emax x :
  sf_nan (SFmul prec emax x x) = true \/ sf_signed false (SFmul prec emax x x) = true.
Proof.
  destruct (sf_nan x) eqn:E.
  - left. now destruct x.
  - right. now apply SFmul_square_signed.
Qed.

Lemma SFadd_class prec emax x y :
  sf_nan x = true \/ sf_signed false x = true ->
  sf_nan y = true \/ sf_signed false y = true ->
  sf_nan (SFadd prec emax x y) = true \/ sf_signed false (SFadd prec emax x y) = true.
Proof.
  intros [Hx | Hx] [Hy | Hy].
  - left. now destruct x.
  - left. now destruct x.
  - left. destruct y; try discriminate. now destruct x.
  - right. now apply SFadd_signed.
Qed.

(** ** The distance is symmetric *)

Lemma binary_round_aux_sign prec emax m e l :
  binary_round_aux prec emax true m e l = SFopp (binary_round_aux prec emax false m e l).
Proof.
  unfold binary_round_aux.
  destruct (shr_fexp prec emax m e l) as [mrs' e'].
  destruct (shr_fexp prec emax _ e' loc_Exact) as [mrs'' e''].
  destruct (shr_m mrs''); try reflexivity.
  now destruct (e'' <=? emax - prec).
Qed.

Lemma binary_normalize_opp prec emax m e :
  same_magnitude (binary_normalize prec emax (- m) e false)
                 (binary_normalize prec emax m e false).
Proof.
  destruct m as [|p|p]; simpl; unfold binary_round.
  - now left.
  - right. destruct (shl_align _ _ _). apply binary_round_aux_sign.
  - right. destruct (shl_align _ _ _). rewrite binary_round_aux_sign.
    destruct (binary_round_aux _ _ _ _ _ _) as [[]|[]| |[] ? ?]; reflexivity.
Qed.

Lemma SFsub_swap prec emax x y :
  same_magnitude (SFsub prec emax x y) (SFsub prec emax y x).
Proof.
  destruct x as [sx|sx| |sx mx ex], y as [sy|sy| |sy my ey];
    try (destruct sx, sy; simpl; unfold same_magnitude; simpl; auto; fail);
    try (destruct sx; simpl; unfold same_magnitude; simpl; auto; fail);
    try (destruct sy; simpl; unfold same_magnitude; simpl; auto; fail);
    try (unfold same_magnitude; simpl; auto; fail).
  unfold SFsub. rewrite (Z.min_comm ey ex).
  match goal with
  | |- same_magnitude (binary_normalize _ _ (?a - ?b) _ _) _ =>
      replace (a - b) with (- (b - a)) by lia
  end.
  apply binary_normalize_opp.
Qed.

Lemma SFmul_square prec emax a b :
  same_magnitude a b -> SFmul prec emax a a = SFmul prec emax b b.
Proof.
  intros [-> | ->]; [reflexivity|].
  destruct b as [[]|[]| |[] m e]; reflexivity.
Qed.

(** [a - b] and [b - a] are equal or opposite. *)
Lemma sub_swap (a b : float) : (a - b = b - a \/ a - b = - (b - a))%float.
Proof.
  destruct (SFsub_swap prec emax (Prim2SF a) (Prim2SF b)) as [H | H].
  - left. rewrite <- (SF2Prim_Prim2SF (a - b)), <- (SF2Prim_Prim2SF (b - a)).
    f_equal. rewrite !sub_spec. exact H.
  - right. rewrite <- (SF2Prim_Prim2SF (a - b)), <- (SF2Prim_Prim2SF (- (b - a))).
    f_equal. rewrite opp_spec, !sub_spec. exact H.
Qed.

(** ** The square

    What the proofs use of [x ** 2]: the properties of [Square]. *)

Section ReconstructorFacts.
Context {square : Square}.

Lemma square_diff_signed (a b : float) :
  is_finite a = true -> is_finite b = true ->
  sf_signed false (Prim2SF (pow2 (a - b))) = true.
Proof.
  intros Ha Hb. destruct (pow2_sign (a - b)) as [H | H]; [|exact H].
  rewrite pow2_number in H; [discriminate|].
  rewrite sub_spec. apply SFsub_finite; now apply is_finite_spec.
Qed.

Lemma distance_not_nan x1 y1 x2 y2 :
  is_finite x1 = true -> is_finite y1 = true ->
  is_finite x2 = true -> is_finite y2 = true ->
  is_nan (euclidean_distance x1 y1 x2 y2) = false.
Proof.
  intros. unfold euclidean_distance. rewrite is_nan_spec, sqrt_spec, add_spec.
  apply SFsqrt_signed, SFadd_signed; now apply square_diff_signed.
Qed.

(** A sum of two squares is never negative, so [math.sqrt] accepts it. *)
Lemma math_sqrt_sum_squares (a b : float) (h : heap) :
  math_sqrt (pow2 a + pow2 b)%float h = (Ok (PrimFloat.sqrt (pow2 a + pow2 b)), h).
Proof.
  unfold math_sqrt.
  replace (is_nan (PrimFloat.sqrt (pow2 a + pow2 b)) && negb (is_nan (pow2 a + pow2 b)))
    with false; [reflexivity|].
  symmetry. rewrite !is_nan_spec, sqrt_spec, add_spec.
  unfold SF64sqrt, SF64add.
  destruct (SFadd_class prec emax _ _ (pow2_sign a) (pow2_sign b)) as [H | H].
  - rewrite H. apply andb_false_r.
  - now rewrite (SFsqrt_signed prec emax _ H).
Qed.

Lemma square_diff_sym (a b : float) : pow2 (a - b) = pow2 (b - a).
Proof. destruct (sub_swap a b) as [-> | ->]; [reflexivity|apply pow2_even]. Qed.

Lemma distance_sym x1 y1 x2 y2 :
  euclidean_distance x1 y1 x2 y2 = euclidean_distance x2 y2 x1 y1.
Proof.
  unfold euclidean_distance. now rewrite (square_diff_sym x2 x1), (square_diff_sym y2 y1).
Qed.

(** ** Running the code *)

Lemma lookup_keys (d : pos_dict) (k : node) :
  In k (keys d) -> exists c, lookup k d = Some c.
Proof.
  induction d as [|[k' c] d IH]; simpl; [tauto|].
  intros [E | H]; destruct (Z.eqb_spec k k'); eauto; congruence.
Qed.

Lemma pair_distance_keys (d : pos_dict) (u v : node) :
  In u (keys d) -> In v (keys d) -> exists x, pair_distance d u v = Some x.
Proof.
  intros Hu Hv. unfold pair_distance.
  destruct (lookup_keys d u Hu) as [[x1 y1] ->].
  destruct (lookup_keys d v Hv) as [[x2 y2] ->]. eauto.
Qed.

Lemma entry_of_pair (d : pos_dict) (p : node * node) :
  drop_distance (entry_of d p) = p.
Proof.
  unfold entry_of. destruct p as [u v]; simpl.
  destruct (pair_distance d u v); reflexivity.
Qed.

(** The first loop never raises on keys of the mapping and appends one
    entry per pair, leaving the heap as it was. *)
Lemma first_loop (h : heap) (pairs : list (node * node)) (acc : list entry) :
  (forall u v, In (u, v) pairs -> In u (keys (hpos h)) /\ In v (keys (hpos h))) ->
  for_fold pairs
    (fun distance_list '(u, v) =>
       p1 <- dict_getitem u ;;
       p2 <- dict_getitem v ;;
       let '(x1, y1) := p1 in
       let '(x2, y2) := p2 in
       distance <- math_sqrt (pow2 (x2 - x1) + pow2 (y2 - y1))%float ;;
       ret (distance_list ++ [(distance, u, v)]))
    acc h
  = (Ok (acc ++ map (entry_of (hpos h)) pairs), h).
Proof.
  revert acc. induction pairs as [|[u v] pairs IH]; intros acc Hin; simpl.
  - now rewrite app_nil_r.
  - destruct (Hin u v (or_introl eq_refl)) as [Hu Hv].
    destruct (lookup_keys _ u Hu) as [[x1 y1] Eu].
    destruct (lookup_keys _ v Hv) as [[x2 y2] Ev].
    unfold bind at 1. unfold bind at 1. unfold dict_getitem at 1. rewrite Eu.
    unfold bind at 1. unfold dict_getitem at 1. rewrite Ev.
    unfold bind at 1. rewrite math_sqrt_sum_squares.
    unfold ret at 1.
    rewrite IH by (intros; apply Hin; now right).
    unfold entry_of at 2, pair_distance. simpl. rewrite Eu, Ev.
    now rewrite <- app_assoc.
Qed.

Lemma getitem_of_nat {A} (l : list A) (i : nat) :
  Py.getitem l (Z.of_nat i) = nth_error l i.
Proof.
  unfold Py.getitem. destruct (Z.ltb_spec (Z.of_nat i) 0); [lia|].
  now rewrite Nat2Z.id.
Qed.

(** The second loop, started at index [a] for [k] rounds: it inserts the
    pairs at the indices it reaches and raises [IndexError] at the first
    index past the end of the list. *)
Lemma second_loop (ops : list (node * node)) (k a : nat) (h : heap) :
  (a <= length ops)%nat ->
  for_each (map Z.of_nat (seq a k))
    (fun i =>
       x <- list_getitem ops i ;;
       y <- list_getitem ops i ;;
       G_add_edge (fst x) (snd y)) h
  = (if (a + k <=? length ops)%nat then Ok tt else Raise IndexError,
     mkHeap (add_edges (hG h) (firstn k (skipn a ops))) (hpos h)).
Proof.
  revert a h. induction k as [|k IH]; intros a h Ha; simpl.
  - destruct (Nat.leb_spec (a + 0) (length ops)); [|lia].
    unfold ret. now destruct h.
  - unfold bind at 1. unfold bind at 1. unfold list_getitem at 1.
    rewrite getitem_of_nat.
    destruct (nth_error ops a) as [p|] eqn:E.
    + assert (a < length ops)%nat by (apply nth_error_Some; congruence).
      unfold ret at 1. unfold bind at 1. unfold list_getitem at 1.
      rewrite getitem_of_nat, E. unfold ret at 1. unfold G_add_edge at 1.
      rewrite IH by (simpl; lia). simpl hG. simpl hpos.
      replace (a + S k <=? length ops)%nat with (S a + k <=? length ops)%nat
        by (f_equal; lia).
      f_equal. f_equal.
      rewrite <- (firstn_skipn a ops) in E.
      rewrite nth_error_app2 in E by (rewrite length_firstn; lia).
      rewrite length_firstn, Nat.min_l, Nat.sub_diag in E by lia.
      change (S a) with (1 + a)%nat. rewrite <- skipn_skipn.
      destruct (skipn a ops) as [|q rest]; simpl in E; [discriminate|].
      now inversion E.
    + apply nth_error_None in E.
      unfold raise at 1.
      destruct (Nat.leb_spec (a + S k) (length ops)); [lia|].
      rewrite skipn_all2 by lia. simpl. now destruct h.
Qed.

(** The call: the graph receives the first [n_edges] ordered pairs, or all
    of them followed by [IndexError] when there are fewer. *)
Lemma call_eq (G : Nx.Graph) (d : pos_dict) (n : Z) :
  call G d n =
  let G' := add_edges G (firstn (Z.to_nat n) (ordered_pairs d)) in
  (if n <=? Z.of_nat (length (ordered_pairs d)) then Ok G' else Raise IndexError,
   mkHeap G' d).
Proof.
  unfold call, euclidean_distance_model.
  unfold bind at 1. unfold dict_keys at 1. simpl hpos.
  unfold bind at 1.
  rewrite first_loop by (simpl; intros u v; apply in_combinations2).
  simpl hpos. simpl app.
  fold (candidate_pairs d). fold (distance_list d). fold (sorted_list d).
  fold (ordered_pairs d).
  unfold bind at 1. unfold Py.range.
  rewrite second_loop by lia. simpl skipn. simpl hG. simpl hpos.
  destruct (Nat.leb_spec (0 + Z.to_nat n) (length (ordered_pairs d)));
    destruct (Z.leb_spec n (Z.of_nat (length (ordered_pairs d)))); try lia;
    reflexivity.
Qed.

(** ** networkx.Graph *)

(** The notebook calls the reconstructor on [G.copy()] after
    [clear_edges()]: an edge-less graph with the nodes of [G]. *)
Lemma clear_edges_edgeless (G : Nx.Graph) :
  edgeless (Nx.clear_edges G) /\ Nx.nodes (Nx.clear_edges G) = Nx.nodes G.
Proof. split; reflexivity. Qed.

Lemma edges_add_node (G : Nx.Graph) (n : node) :
  Nx.edges (Nx.add_node G n) = Nx.edges G.
Proof. unfold Nx.add_node. now destruct (Nx.has_node G n). Qed.

Lemma edges_add_edge (G : Nx.Graph) (u v : node) :
  Nx.edges (Nx.add_edge G u v) =
  if existsb (Nx.same_edge (u, v)) (Nx.edges G)
  then Nx.edges G else Nx.edges G ++ [(u, v)].
Proof.
  unfold Nx.add_edge, Nx.has_edge. rewrite !edges_add_node.
  destruct (existsb _ _); simpl; now rewrite ?edges_add_node.
Qed.

Lemma nodes_add_edge (G : Nx.Graph) (u v : node) :
  Nx.nodes (Nx.add_edge G u v) = Nx.nodes (Nx.add_node (Nx.add_node G u) v).
Proof. unfold Nx.add_edge. now destruct (Nx.has_edge _ u v). Qed.

Lemma has_node_In (G : Nx.Graph) (n : node) :
  Nx.has_node G n = true <-> In n (Nx.nodes G).
Proof.
  unfold Nx.has_node. rewrite existsb_exists. split.
  - intros (x & Hx & E). apply Z.eqb_eq in E. now subst.
  - intros H. exists n. split; [assumption|apply Z.eqb_refl].
Qed.

Lemma same_edge_iff (e e' : node * node) :
  Nx.same_edge e e' = true <-> e' = e \/ e' = (snd e, fst e).
Proof.
  unfold Nx.same_edge. destruct e as [u v], e' as [u' v']; simpl.
  rewrite orb_true_iff, !andb_true_iff, !Z.eqb_eq.
  split; [intros [[-> ->] | [-> ->]] | intros [E | E]; inversion E]; auto.
Qed.

Lemma has_edge_In (G : Nx.Graph) (u v : node) :
  Nx.has_edge G u v = true <-> In (u, v) (Nx.edges G) \/ In (v, u) (Nx.edges G).
Proof.
  unfold Nx.has_edge. rewrite existsb_exists. split.
  - intros (e & He & E). apply same_edge_iff in E. simpl in E.
    destruct E; subst; auto.
  - intros [H | H]; eexists; (split; [exact H|]); apply same_edge_iff; simpl; auto.
Qed.

Lemma add_edges_cons (G : Nx.Graph) (p : node * node) (l : list (node * node)) :
  add_edges G (p :: l) = add_edges (Nx.add_edge G (fst p) (snd p)) l.
Proof. reflexivity. Qed.

(** The edges after a run of insertions depend on the edges before it only. *)
Lemma add_edges_edges (G1 G2 : Nx.Graph) (l : list (node * node)) :
  Nx.edges G1 = Nx.edges G2 ->
  Nx.edges (add_edges G1 l) = Nx.edges (add_edges G2 l).
Proof.
  revert G1 G2. induction l as [|p l IH]; intros G1 G2 E; [exact E|].
  rewrite !add_edges_cons. apply IH. rewrite !edges_add_edge. now rewrite E.
Qed.

(** Insertions only append: the edges that were there stay, in place. *)
Lemma add_edges_extends (G : Nx.Graph) (l : list (node * node)) :
  exists new, Nx.edges (add_edges G l) = Nx.edges G ++ new /\ incl new l.
Proof.
  revert G. induction l as [|p l IH]; intros G.
  - exists []. split; [now rewrite app_nil_r|easy].
  - rewrite add_edges_cons.
    destruct (IH (Nx.add_edge G (fst p) (snd p))) as (new & E & Hn).
    rewrite edges_add_edge in E.
    destruct (existsb _ _).
    + exists new. split; [assumption|]. now apply incl_tl.
    + exists ((fst p, snd p) :: new). split.
      * now rewrite E, <- app_assoc.
      * destruct p. apply incl_cons; [now left|now apply incl_tl].
Qed.

Lemma simple_app_head (E l : list (node * node)) (p : node * node) :
  simple (E ++ p :: l) -> existsb (Nx.same_edge (fst p, snd p)) E = false.
Proof.
  intros [Hnd Hor]. apply not_true_is_false. rewrite existsb_exists.
  intros (e & He & Hs). apply same_edge_iff in Hs. simpl in Hs.
  destruct p as [u v]; simpl in *.
  destruct Hs; subst.
  - apply NoDup_remove_2 in Hnd. apply Hnd. apply in_or_app. auto.
  - apply (Hor u v); apply in_or_app; simpl; auto.
Qed.

(** Inserting a simple list of pairs, none of which is there yet, appends
    the list as it is. *)
Lemma add_edges_simple (G : Nx.Graph) (l : list (node * node)) :
  simple (Nx.edges G ++ l) -> Nx.edges (add_edges G l) = Nx.edges G ++ l.
Proof.
  revert G. induction l as [|p l IH]; intros G Hs.
  - now rewrite app_nil_r.
  - rewrite add_edges_cons.
    assert (E : Nx.edges (Nx.add_edge G (fst p) (snd p)) = Nx.edges G ++ [p]).
    { rewrite edges_add_edge, (simple_app_head _ l p Hs). now destruct p. }
    rewrite IH; rewrite E, <- app_assoc; [reflexivity|exact Hs].
Qed.

Lemma add_edges_edgeless (G : Nx.Graph) (l : list (node * node)) :
  edgeless G -> simple l -> Nx.edges (add_edges G l) = l.
Proof.
  intros E Hs. rewrite add_edges_simple; rewrite E; [reflexivity|exact Hs].
Qed.

Lemma nodes_add_node_known (G : Nx.Graph) (n : node) :
  In n (Nx.nodes G) -> Nx.add_node G n = G.
Proof.
  intros H. unfold Nx.add_node. apply has_node_In in H. now rewrite H.
Qed.

(** Nodes are only ever appended, and only endpoints that were missing. *)
Lemma add_node_extends (G : Nx.Graph) (n : node) :
  exists new, Nx.nodes (Nx.add_node G n) = Nx.nodes G ++ new /\ incl new [n].
Proof.
  unfold Nx.add_node. destruct (Nx.has_node G n).
  - exists []. split; [now rewrite app_nil_r|easy].
  - exists [n]. split; [reflexivity|apply incl_refl].
Qed.

Lemma add_edges_nodes (G : Nx.Graph) (l : list (node * node)) :
  exists new,
    Nx.nodes (add_edges G l) = Nx.nodes G ++ new /\
    forall n, In n new -> exists p, In p l /\ (n = fst p \/ n = snd p).
Proof.
  revert G. induction l as [|p l IH]; intros G.
  - exists []. split; [now rewrite app_nil_r|easy].
  - rewrite add_edges_cons.
    destruct (IH (Nx.add_edge G (fst p) (snd p))) as (new & E & Hn).
    rewrite nodes_add_edge in E.
    destruct (add_node_extends (Nx.add_node G (fst p)) (snd p)) as (n2 & E2 & H2).
    destruct (add_node_extends G (fst p)) as (n1 & E1 & H1).
    rewrite E2, E1, <- !app_assoc in E.
    exists (n1 ++ n2 ++ new). split; [exact E|].
    intros n. rewrite !in_app_iff. intros [H | [H | H]].
    + apply H1 in H. destruct H as [<- | []]. exists p. simpl; auto.
    + apply H2 in H. destruct H as [<- | []]. exists p. simpl; auto.
    + destruct (Hn n H) as (q & Hq & Hq'). exists q. simpl; auto.
Qed.

Lemma add_edges_nodes_known (G : Nx.Graph) (l : list (node * node)) :
  (forall u v, In (u, v) l -> In u (Nx.nodes G) /\ In v (Nx.nodes G)) ->
  Nx.nodes (add_edges G l) = Nx.nodes G.
Proof.
  revert G. induction l as [|[u v] l IH]; intros G H; [reflexivity|].
  rewrite add_edges_cons. simpl fst. simpl snd.
  destruct (H u v (or_introl eq_refl)) as [Hu Hv].
  assert (E : Nx.nodes (Nx.add_edge G u v) = Nx.nodes G).
  { rewrite nodes_add_edge, !nodes_add_node_known; auto.
    now rewrite nodes_add_node_known. }
  rewrite IH; [exact E|].
  intros u' v' H'. rewrite E. apply H. now right.
Qed.

Lemma add_node_In (G : Nx.Graph) (n k : node) :
  In k (Nx.nodes (Nx.add_node G n)) <-> In k (Nx.nodes G) \/ k = n.
Proof.
  unfold Nx.add_node. destruct (Nx.has_node G n) eqn:E; simpl.
  - apply has_node_In in E. split; [auto|]. intros [H | ->]; auto.
  - rewrite in_app_iff. simpl. intuition.
Qed.

Lemma add_edge_nodes_In (G : Nx.Graph) (u v k : node) :
  In k (Nx.nodes (Nx.add_edge G u v)) <-> In k (Nx.nodes G) \/ k = u \/ k = v.
Proof. rewrite nodes_add_edge, !add_node_In. tauto. Qed.

Lemma add_edge_edges_In (G : Nx.Graph) (u v : node) (e : node * node) :
  In e (Nx.edges (Nx.add_edge G u v)) <->
  In e (Nx.edges G) \/ (e = (u, v) /\ Nx.has_edge G u v = false).
Proof.
  rewrite edges_add_edge. unfold Nx.has_edge.
  destruct (existsb _ _); [|rewrite in_app_iff; simpl]; intuition congruence.
Qed.

Lemma add_edge_has_edge (G : Nx.Graph) (u v a b : node) :
  Nx.has_edge (Nx.add_edge G u v) a b = true <->
  Nx.has_edge G a b = true \/ (a = u /\ b = v) \/ (a = v /\ b = u).
Proof.
  rewrite !has_edge_In, !add_edge_edges_In. split.
  - intros [[H | [E _]] | [H | [E _]]]; auto; inversion E; auto.
  - intros [[H | H] | [[-> ->] | [-> ->]]]; auto;
      destruct (Nx.has_edge G u v) eqn:E; auto;
      apply has_edge_In in E; tauto.
Qed.

Lemma add_node_has_edge (G : Nx.Graph) (n a b : node) :
  Nx.has_edge (Nx.add_node G n) a b = Nx.has_edge G a b.
Proof. unfold Nx.has_edge. now rewrite edges_add_node. Qed.

Lemma add_edge_present (G : Nx.Graph) (u v : node) :
  In u (Nx.nodes G) -> In v (Nx.nodes G) -> Nx.has_edge G u v = true ->
  Nx.add_edge G u v = G.
Proof.
  intros Hu Hv He. unfold Nx.add_edge.
  rewrite (nodes_add_node_known G u Hu), (nodes_add_node_known G v Hv).
  now rewrite He.
Qed.

Lemma add_edge_keeps_present (G : Nx.Graph) (u v : node) (p : node * node) :
  present G p -> present (Nx.add_edge G u v) p.
Proof.
  intros (H1 & H2 & H3). unfold present.
  rewrite !add_edge_nodes_In. repeat split; auto.
  apply add_edge_has_edge. now left.
Qed.

Lemma add_edges_present (G : Nx.Graph) (l : list (node * node)) (p : node * node) :
  present G p \/ In p l -> present (add_edges G l) p.
Proof.
  revert G. induction l as [|q l IH]; intros G [H | H]; try contradiction.
  - exact H.
  - rewrite add_edges_cons. apply IH. left. now apply add_edge_keeps_present.
  - rewrite add_edges_cons. apply IH. destruct H as [-> | H]; [left|now right].
    unfold present. rewrite !add_edge_nodes_In. repeat split; auto.
    apply add_edge_has_edge. auto.
Qed.

Lemma add_edges_noop (G : Nx.Graph) (l : list (node * node)) :
  (forall p, In p l -> present G p) -> add_edges G l = G.
Proof.
  induction l as [|q l IH]; intros H; [reflexivity|].
  rewrite add_edges_cons.
  destruct (H q (or_introl eq_refl)) as (H1 & H2 & H3).
  rewrite add_edge_present by assumption.
  apply IH. intros p Hp. apply H. now right.
Qed.

(** A node that [add_node] appends was not a node before. *)
Lemma add_node_fresh (G : Nx.Graph) (n : node) :
  exists new, Nx.nodes (Nx.add_node G n) = Nx.nodes G ++ new /\
              forall k, In k new -> ~ In k (Nx.nodes G).
Proof.
  unfold Nx.add_node. destruct (Nx.has_node G n) eqn:E.
  - exists []. split; [now rewrite app_nil_r|easy].
  - exists [n]. split; [reflexivity|].
    intros k [<- | []] H. apply has_node_In in H. congruence.
Qed.

Lemma add_edges_nodes_fresh (G : Nx.Graph) (l : list (node * node)) :
  exists new, Nx.nodes (add_edges G l) = Nx.nodes G ++ new /\
              forall k, In k new -> ~ In k (Nx.nodes G).
Proof.
  revert G. induction l as [|p l IH]; intros G.
  - exists []. split; [now rewrite app_nil_r|easy].
  - rewrite add_edges_cons.
    destruct (IH (Nx.add_edge G (fst p) (snd p))) as (new & E & Hn).
    rewrite nodes_add_edge in E, Hn.
    destruct (add_node_fresh (Nx.add_node G (fst p)) (snd p)) as (n2 & E2 & H2).
    destruct (add_node_fresh G (fst p)) as (n1 & E1 & H1).
    rewrite E2, E1 in Hn. rewrite E2, E1, <- !app_assoc in E.
    exists (n1 ++ n2 ++ new). split; [exact E|].
    intros k. rewrite !in_app_iff. intros [H | [H | H]] Hk.
    + now apply (H1 k).
    + apply (H2 k H). rewrite E1. apply in_or_app. now left.
    + apply (Hn k H). apply in_or_app. left. apply in_or_app. now left.
Qed.

(** The nodes after a run of insertions: those there were, and the
    endpoints of the pairs. *)
Lemma add_edges_nodes_In (G : Nx.Graph) (l : list (node * node)) (k : node) :
  In k (Nx.nodes (add_edges G l)) <->
  In k (Nx.nodes G) \/ exists u v, In (u, v) l /\ (k = u \/ k = v).
Proof.
  revert G. induction l as [|[a b] l IH]; intros G.
  - simpl. split; [auto|]. intros [H | (u & v & [] & _)]. exact H.
  - rewrite add_edges_cons, IH, add_edge_nodes_In. simpl fst. simpl snd. split.
    + intros [[H | H] | (u & v & H & Hk)]; auto.
      * right. exists a, b. split; [now left|exact H].
      * right. exists u, v. split; [now right|exact Hk].
    + intros [H | (u & v & [E | H] & Hk)]; auto.
      * inversion E; subst. auto.
      * right. now exists u, v.
Qed.

(** The nodes that a run of insertions appends are exactly the endpoints
    of its pairs that were no nodes. *)
Lemma add_edges_new_nodes (G : Nx.Graph) (l : list (node * node)) :
  exists new,
    Nx.nodes (add_edges G l) = Nx.nodes G ++ new /\
    forall k, In k new <->
              ~ In k (Nx.nodes G) /\ exists u v, In (u, v) l /\ (k = u \/ k = v).
Proof.
  destruct (add_edges_nodes_fresh G l) as (new & E & Hf).
  exists new. split; [exact E|]. intros k. split.
  - intros H. split; [now apply Hf|].
    assert (Hk : In k (Nx.nodes (add_edges G l)))
      by (rewrite E; apply in_or_app; now right).
    apply add_edges_nodes_In in Hk. destruct Hk as [Hk | Hk]; [|exact Hk].
    now apply Hf in H.
  - intros [Hn Hk].
    assert (Hin : In k (Nx.nodes (add_edges G l)))
      by (apply add_edges_nodes_In; now right).
    rewrite E in Hin. apply in_app_or in Hin. tauto.
Qed.

(** On a graph whose edges join nodes of the graph, they are exactly the
    endpoints of the edges it appends that were no nodes. *)
Lemma add_edges_new_edges (G : Nx.Graph) (l : list (node * node)) :
  closed G ->
  exists new_edges new_nodes,
    Nx.edges (add_edges G l) = Nx.edges G ++ new_edges /\
    Nx.nodes (add_edges G l) = Nx.nodes G ++ new_nodes /\
    incl new_edges l /\
    forall k, In k new_nodes <->
              ~ In k (Nx.nodes G) /\
              exists u v, In (u, v) new_edges /\ (k = u \/ k = v).
Proof.
  intros Hc.
  destruct (add_edges_extends G l) as (new_edges & Ee & Hincl).
  destruct (add_edges_new_nodes G l) as (new_nodes & En & Hn).
  exists new_edges, new_nodes. repeat (split; [assumption|]).
  intros k. rewrite Hn. split; intros [Hk (u & v & H & Huv)]; (split; [exact Hk|]).
  - assert (Hp : present (add_edges G l) (u, v))
      by (apply add_edges_present; now right).
    destruct Hp as (_ & _ & He). simpl in He.
    apply has_edge_In in He. rewrite Ee, !in_app_iff in He.
    destruct He as [[He | He] | [He | He]].
    + apply Hc in He. destruct Huv as [-> | ->]; tauto.
    + exists u, v. auto.
    + apply Hc in He. destruct Huv as [-> | ->]; tauto.
    + exists v, u. tauto.
  - exists u, v. split; [now apply Hincl|exact Huv].
Qed.

(** ** The ordered pairs *)

Lemma simple_perm (l l' : list (node * node)) :
  Permutation l l' -> simple l -> simple l'.
Proof.
  intros P [Hnd Hor]. split.
  - eapply Permutation_NoDup; eassumption.
  - intros u v H H'. apply (Hor u v); eapply Permutation_in; try eassumption;
      now symmetry.
Qed.

Lemma simple_app_l (l l' : list (node * node)) : simple (l ++ l') -> simple l.
Proof.
  intros [Hnd Hor]. split.
  - eapply NoDup_app_remove_r; eassumption.
  - intros u v H H'. apply (Hor u v); apply in_or_app; auto.
Qed.

Lemma simple_firstn (n : nat) (l : list (node * node)) :
  simple l -> simple (firstn n l).
Proof. intros H. rewrite <- (firstn_skipn n l) in H. now apply simple_app_l in H. Qed.

Lemma simple_no_loop (l : list (node * node)) (u v : node) :
  simple l -> In (u, v) l -> u <> v.
Proof. intros [_ Hor] H ->. now apply (Hor v v). Qed.

Lemma candidate_pairs_simple (d : pos_dict) :
  well_formed d -> simple (candidate_pairs d).
Proof.
  intros H. split.
  - now apply combinations2_NoDup.
  - intros u v. now apply combinations2_oriented.
Qed.

Lemma distance_list_pairs (d : pos_dict) :
  map drop_distance (distance_list d) = candidate_pairs d.
Proof.
  unfold distance_list. rewrite map_map.
  rewrite (map_ext _ (fun p => p)) by apply entry_of_pair. apply map_id.
Qed.

Lemma ordered_pairs_perm (d : pos_dict) :
  Permutation (ordered_pairs d) (candidate_pairs d).
Proof.
  unfold ordered_pairs, sorted_list. rewrite <- distance_list_pairs.
  apply Permutation_map, sort_perm.
Qed.

Lemma ordered_pairs_simple (d : pos_dict) :
  well_formed d -> simple (ordered_pairs d).
Proof.
  intros H. eapply simple_perm; [symmetry; apply ordered_pairs_perm|].
  now apply candidate_pairs_simple.
Qed.

Lemma ordered_pairs_length (d : pos_dict) :
  Z.of_nat (length (ordered_pairs d)) = total_pairs d.
Proof.
  rewrite (Permutation_length (ordered_pairs_perm d)).
  unfold candidate_pairs, total_pairs, keys.
  pose proof (combinations2_length (map fst d)) as H.
  rewrite length_map in H.
  set (c := length (Py.combinations2 (map fst d))) in *.
  set (n := length d) in *.
  apply Z.div_unique_exact; [lia|]. nia.
Qed.

(** The graph a call leaves, on an edge-less graph and a well-formed
    mapping: its edges are the first [n_edges] ordered pairs. *)
Lemma final_graph_eq (G : Nx.Graph) (d : pos_dict) (n : Z) :
  final_graph G d n = add_edges G (firstn (Z.to_nat n) (ordered_pairs d)).
Proof. unfold final_graph. now rewrite call_eq. Qed.

Lemma final_edges (G : Nx.Graph) (d : pos_dict) (n : Z) :
  well_formed d -> edgeless G ->
  Nx.edges (final_graph G d n) = firstn (Z.to_nat n) (ordered_pairs d).
Proof.
  intros Hd HG. rewrite final_graph_eq. apply add_edges_edgeless; [exact HG|].
  now apply simple_firstn, ordered_pairs_simple.
Qed.

Lemma call_valid (G : Nx.Graph) (d : pos_dict) (n : Z) :
  n <= total_pairs d ->
  call G d n = (Ok (final_graph G d n), mkHeap (final_graph G d n) d).
Proof.
  intros H. rewrite final_graph_eq, call_eq, ordered_pairs_length. simpl.
  destruct (Z.leb_spec n (total_pairs d)); [reflexivity|lia].
Qed.

Lemma call_beyond (G : Nx.Graph) (d : pos_dict) (n : Z) :
  total_pairs d < n ->
  call G d n = (Raise IndexError, mkHeap (add_edges G (ordered_pairs d)) d).
Proof.
  intros H. rewrite call_eq, ordered_pairs_length. simpl.
  destruct (Z.leb_spec n (total_pairs d)); [lia|].
  rewrite firstn_all2; [reflexivity|].
  pose proof (ordered_pairs_length d). lia.
Qed.

Lemma returns_valid (G : Nx.Graph) (d : pos_dict) (n : Z) :
  n <= total_pairs d -> returns G d n (final_graph G d n).
Proof. intros H. unfold returns. now rewrite call_valid. Qed.

Lemma total_pairs_nonneg (d : pos_dict) : 0 <= total_pairs d.
Proof. rewrite <- ordered_pairs_length. lia. Qed.


(** ** The order of the ordered pairs *)

Lemma lookup_In (d : pos_dict) (k : node) (c : coord) :
  lookup k d = Some c -> In (k, c) d.
Proof.
  induction d as [|[k' c'] d IH]; simpl; [discriminate|].
  destruct (Z.eqb_spec k k'); intros E.
  - inversion E; subst. now left.
  - right. now apply IH.
Qed.

Lemma pair_distance_sym (d : pos_dict) (u v : node) :
  pair_distance d u v = pair_distance d v u.
Proof.
  unfold pair_distance.
  destruct (lookup u d) as [[x1 y1]|], (lookup v d) as [[x2 y2]|]; try reflexivity.
  f_equal. apply distance_sym.
Qed.

Lemma pair_distance_real (d : pos_dict) (u v : node) (x : float) :
  real_coordinates d = true -> pair_distance d u v = Some x -> is_nan x = false.
Proof.
  unfold real_coordinates, pair_distance. rewrite forallb_forall. intros Hd.
  destruct (lookup u d) as [[x1 y1]|] eqn:Eu; [|discriminate].
  destruct (lookup v d) as [[x2 y2]|] eqn:Ev; [|discriminate].
  apply lookup_In, Hd in Eu. apply lookup_In, Hd in Ev. simpl in Eu, Ev.
  apply andb_true_iff in Eu, Ev. intros E. inversion E; subst.
  now apply distance_not_nan.
Qed.

(** Every entry of the list holds a candidate pair and its distance. *)
Lemma distance_list_entry (d : pos_dict) (x : entry) :
  In x (distance_list d) ->
  In (drop_distance x) (candidate_pairs d) /\
  pair_distance d (fst (drop_distance x)) (snd (drop_distance x)) = Some (key0 x).
Proof.
  unfold distance_list. rewrite in_map_iff. intros ([u v] & <- & Hp).
  rewrite entry_of_pair. split; [exact Hp|].
  apply in_combinations2 in Hp. destruct Hp as [Hu Hv].
  destruct (pair_distance_keys d u v Hu Hv) as [y E].
  unfold entry_of. simpl. now rewrite E.
Qed.

Lemma sorted_list_entry (d : pos_dict) (x : entry) :
  In x (sorted_list d) ->
  In (drop_distance x) (candidate_pairs d) /\
  pair_distance d (fst (drop_distance x)) (snd (drop_distance x)) = Some (key0 x).
Proof.
  intros H. apply distance_list_entry.
  eapply Permutation_in; [apply (sort_perm PrimFloat.ltb key0)|exact H].
Qed.

Lemma real_numeric (d : pos_dict) :
  real_coordinates d = true -> numeric_distances d = true.
Proof.
  intros Hd. unfold numeric_distances. apply forallb_forall. intros x Hx.
  apply distance_list_entry in Hx. destruct Hx as [_ E].
  now rewrite (pair_distance_real d _ _ _ Hd E).
Qed.

Lemma sorted_list_sorted (d : pos_dict) :
  numeric_distances d = true ->
  StronglySorted (Py.ordered PrimFloat.ltb key0) (sorted_list d).
Proof.
  intros H. unfold sorted_list.
  apply (sort_sorted PrimFloat.ltb key0 (fun k => is_nan k = false)).
  - exact float_ltb_asym.
  - exact float_ltb_negtrans.
  - unfold numeric_distances in H. rewrite forallb_forall in H.
    apply Forall_forall. intros x Hx. apply H in Hx. now destruct (is_nan (key0 x)).
Qed.

Lemma sorted_app_ordered {A} (R : A -> A -> Prop) (l1 l2 : list A) (x y : A) :
  StronglySorted R (l1 ++ l2) -> In x l1 -> In y l2 -> R x y.
Proof.
  induction l1 as [|z l1 IH]; simpl; [tauto|].
  intros Hs [-> | Hx] Hy; inversion Hs as [|? ? Hs' Hz]; subst.
  - rewrite Forall_forall in Hz. apply Hz, in_or_app. now right.
  - now apply IH.
Qed.

Lemma in_firstn {A} (n : nat) (l : list A) (x : A) : In x (firstn n l) -> In x l.
Proof. intros H. rewrite <- (firstn_skipn n l). apply in_or_app. now left. Qed.

Lemma in_skipn {A} (n : nat) (l : list A) (x : A) : In x (skipn n l) -> In x l.
Proof. intros H. rewrite <- (firstn_skipn n l). apply in_or_app. now right. Qed.

(** An earlier pair of the order is no farther apart than a later one. *)
Lemma ordered_pairs_ascending (d : pos_dict) (t : nat) (e e' : node * node) (x x' : float) :
  real_coordinates d = true ->
  In e (firstn t (ordered_pairs d)) -> In e' (skipn t (ordered_pairs d)) ->
  pair_distance d (fst e) (snd e) = Some x ->
  pair_distance d (fst e') (snd e') = Some x' ->
  PrimFloat.leb x x' = true.
Proof.
  intros Hd He He' Ex Ex'. unfold ordered_pairs in He, He'.
  rewrite firstn_map in He. rewrite skipn_map in He'.
  apply in_map_iff in He. destruct He as (a & <- & Ha).
  apply in_map_iff in He'. destruct He' as (a' & <- & Ha').
  pose proof (sorted_list_sorted d (real_numeric d Hd)) as Hs.
  rewrite <- (firstn_skipn t (sorted_list d)) in Hs.
  pose proof (sorted_app_ordered _ _ _ a a' Hs Ha Ha') as Hord.
  destruct (sorted_list_entry d a) as [_ Ea];
    [eapply in_firstn; exact Ha|].
  destruct (sorted_list_entry d a') as [_ Ea'];
    [eapply in_skipn; exact Ha'|].
  rewrite Ea in Ex. rewrite Ea' in Ex'. inversion Ex; inversion Ex'; subst.
  apply float_leb_of_not_ltb; [eapply pair_distance_real; eassumption ..|exact Hord].
Qed.

(** * The claims *)

(** ** C1: the number of edges *)

(** C1, amended: for a well-formed mapping and an initially edge-less graph,
    the supplied graph ends with exactly min(max(0, n_edges), N(N-1)/2)
    edges, which is min(n_edges, N(N-1)/2) for every target that is not
    negative; the call returns that graph when n_edges <= N(N-1)/2 and
    raises IndexError otherwise. *)
Theorem edge_count (G : Nx.Graph) (d : pos_dict) (n : Z) :
  well_formed d -> edgeless G ->
  Nx.number_of_edges (final_graph G d n) = Z.min (Z.max 0 n) (total_pairs d) /\
  (n <= total_pairs d -> returns G d n (final_graph G d n)) /\
  (total_pairs d < n -> raises G d n IndexError).
Proof.
  intros Hd HG. split; [|split].
  - unfold Nx.number_of_edges. rewrite final_edges by assumption.
    rewrite length_firstn. pose proof (ordered_pairs_length d). lia.
  - apply returns_valid.
  - intros H. unfold raises. now rewrite call_beyond.
Qed.

(** ** C2: invalid targets *)

(** C2, amended: a target above N(N-1)/2 makes the call raise IndexError
    (the out-of-range access itself; there is no InvalidTarget), and only
    after every one of the N(N-1)/2 candidate pairs has been inserted into
    the supplied graph; a negative target is no error: the graph is
    returned as it was. *)
Theorem invalid_target (G : Nx.Graph) (d : pos_dict) (n : Z) :
  well_formed d -> edgeless G ->
  (total_pairs d < n ->
   call G d n = (Raise IndexError, mkHeap (final_graph G d n) d) /\
   Nx.edges (final_graph G d n) = ordered_pairs d /\
   Nx.number_of_edges (final_graph G d n) = total_pairs d) /\
  (n < 0 -> call G d n = (Ok G, mkHeap G d)).
Proof.
  intros Hd HG. split; intros H.
  - assert (E : final_graph G d n = add_edges G (ordered_pairs d))
      by (unfold final_graph; now rewrite call_beyond).
    rewrite call_beyond, E by assumption.
    assert (E' : Nx.edges (add_edges G (ordered_pairs d)) = ordered_pairs d)
      by (apply add_edges_edgeless; [assumption|now apply ordered_pairs_simple]).
    repeat split; [exact E'|].
    unfold Nx.number_of_edges. rewrite E'. apply ordered_pairs_length.
  - rewrite call_eq. simpl.
    replace (Z.to_nat n) with 0%nat by lia. simpl.
    destruct (Z.leb_spec n (Z.of_nat (length (ordered_pairs d)))); [reflexivity|lia].
Qed.

(** ** C4: monotonicity in the target *)

(** C4, amended: for a well-formed mapping of real coordinates and valid
    targets [t] and [t + k], the call for [t + k] returns a graph that has
    every edge of the graph returned for [t], and each of its further edges
    is at a computed distance greater than or equal to that of every edge
    returned for [t].  The distances are the binary64 values that the code
    computes and sorts by ([pair_distance]), compared by [<=] on binary64;
    the exact distances need not be in this order. *)
Theorem monotone (G : Nx.Graph) (d : pos_dict) (t k : Z) :
  well_formed d -> edgeless G -> real_coordinates d = true ->
  0 <= t -> 0 <= k -> t + k <= total_pairs d ->
  exists G1 G2,
    returns G d t G1 /\ returns G d (t + k) G2 /\
    incl (Nx.edges G1) (Nx.edges G2) /\
    forall e e' x x',
      In e (Nx.edges G1) -> In e' (Nx.edges G2) -> ~ In e' (Nx.edges G1) ->
      pair_distance d (fst e) (snd e) = Some x ->
      pair_distance d (fst e') (snd e') = Some x' ->
      PrimFloat.leb x x' = true.
Proof.
  intros Hd HG Hr Ht Hk Htk.
  exists (final_graph G d t), (final_graph G d (t + k)).
  split; [apply returns_valid; lia|]. split; [now apply returns_valid|].
  rewrite !final_edges by assumption.
  set (ops := ordered_pairs d). set (a := Z.to_nat t).
  assert (E : firstn a ops = firstn a (firstn (Z.to_nat (t + k)) ops))
    by (rewrite firstn_firstn; f_equal; lia).
  split.
  - rewrite E. intros e. apply in_firstn.
  - intros e e' x x' He He' Hn. apply (ordered_pairs_ascending d a); try assumption.
    apply in_firstn in He'. fold ops in He'.
    rewrite <- (firstn_skipn a ops) in He'. apply in_app_or in He'. tauto.
Qed.

(** ** C5: the closest pair *)


(** ** C6: the returned edges are simple *)

(** C6: for a well-formed mapping, an initially edge-less graph and a valid
    target, the returned graph has no edge from a node to itself and no
    unordered pair twice, be it in the same or in the opposite
    orientation. *)
Theorem simple_edges (G : Nx.Graph) (d : pos_dict) (n : Z) :
  well_formed d -> edgeless G -> 0 <= n <= total_pairs d ->
  exists G',
    returns G d n G' /\
    (forall u v, In (u, v) (Nx.edges G') -> u <> v) /\
    NoDup (Nx.edges G') /\
    (forall u v, In (u, v) (Nx.edges G') -> ~ In (v, u) (Nx.edges G')).
Proof.
  intros Hd HG Hn. exists (final_graph G d n).
  split; [apply returns_valid; lia|].
  rewrite final_edges by assumption.
  pose proof (simple_firstn (Z.to_nat n) _ (ordered_pairs_simple d Hd)) as Hs.
  split; [intros u v; now apply simple_no_loop|exact Hs].
Qed.

(** ** C7: the frame *)

(** C7, amended: whatever the call, the mapping is left as it was, and
    the edges and the nodes the graph had are kept in place.  What is added
    are edges and nodes, and the nodes added are keys of the mapping.  On a
    graph whose edges join nodes of the graph, as [networkx] keeps every
    graph, the nodes added are exactly the endpoints of the edges added that
    were no nodes of the graph: every node added is such an endpoint, and
    every such endpoint is added.  When every key of the mapping is a node
    of the supplied graph (as for [G.copy()] in the notebook), nothing but
    the edges changes. *)
Theorem frame (G : Nx.Graph) (d : pos_dict) (n : Z) :
  hpos (snd (call G d n)) = d /\
  (exists new, Nx.edges (final_graph G d n) = Nx.edges G ++ new) /\
  (exists new, Nx.nodes (final_graph G d n) = Nx.nodes G ++ new /\
               forall k, In k new -> In k (keys d)) /\
  (closed G ->
   exists new_edges new_nodes,
     Nx.edges (final_graph G d n) = Nx.edges G ++ new_edges /\
     Nx.nodes (final_graph G d n) = Nx.nodes G ++ new_nodes /\
     forall k, In k new_nodes <->
               ~ In k (Nx.nodes G) /\
               exists u v, In (u, v) new_edges /\ (k = u \/ k = v)) /\
  (incl (keys d) (Nx.nodes G) -> Nx.nodes (final_graph G d n) = Nx.nodes G).
Proof.
  assert (Hin : forall u v, In (u, v) (firstn (Z.to_nat n) (ordered_pairs d)) ->
                            In u (keys d) /\ In v (keys d)).
  { intros u v H. apply in_firstn in H.
    apply (Permutation_in _ (ordered_pairs_perm d)) in H.
    now apply in_combinations2 in H. }
  split; [now rewrite call_eq|]. rewrite final_graph_eq.
  split; [|split; [|split]].
  - destruct (add_edges_extends G (firstn (Z.to_nat n) (ordered_pairs d)))
      as (new & E & _). eauto.
  - destruct (add_edges_new_nodes G (firstn (Z.to_nat n) (ordered_pairs d)))
      as (new & E & Hnew).
    exists new. split; [exact E|]. intros k Hk.
    apply Hnew in Hk. destruct Hk as (_ & u & v & Hp & [-> | ->]); now apply Hin in Hp.
  - intros Hc.
    destruct (add_edges_new_edges G (firstn (Z.to_nat n) (ordered_pairs d)) Hc)
      as (new_edges & new_nodes & Ee & En & _ & Hn).
    now exists new_edges, new_nodes.
  - intros Hincl. apply add_edges_nodes_known.
    intros u v H. apply Hin in H. split; apply Hincl; tauto.
Qed.

(** ** C8: the complete graph *)

(** C8: for a well-formed mapping over at least two nodes and an initially
    edge-less graph, the call with target N(N-1)/2 returns a graph in which
    every two distinct nodes of the mapping are joined; it has N(N-1)/2
    edges, all between nodes of the mapping. *)
Theorem complete_graph (G : Nx.Graph) (d : pos_dict) :
  well_formed d -> edgeless G -> (2 <= length d)%nat ->
  exists G',
    returns G d (total_pairs d) G' /\
    (forall u v, In u (keys d) -> In v (keys d) -> u <> v ->
                 Nx.has_edge G' u v = true) /\
    Nx.number_of_edges G' = total_pairs d /\
    (forall u v, In (u, v) (Nx.edges G') -> In u (keys d) /\ In v (keys d)).
Proof.
  intros Hd HG _. exists (final_graph G d (total_pairs d)).
  split; [apply returns_valid; lia|].
  assert (E : Nx.edges (final_graph G d (total_pairs d)) = ordered_pairs d).
  { rewrite final_edges by assumption. apply firstn_all2.
    pose proof (ordered_pairs_length d). lia. }
  split; [|split].
  - intros u v Hu Hv Huv. apply has_edge_In. rewrite E.
    destruct (combinations2_complete _ u v Hu Hv Huv) as [H | H];
      [left | right];
      apply (Permutation_in _ (Permutation_sym (ordered_pairs_perm d))); exact H.
  - unfold Nx.number_of_edges. rewrite E. apply ordered_pairs_length.
  - intros u v H. rewrite E in H.
    apply (Permutation_in _ (ordered_pairs_perm d)) in H.
    now apply in_combinations2 in H.
Qed.

(** ** C9: four nodes, two edges *)

Lemma in_insert_everywhere {A} (x : A) (l1 l2 : list A) :
  In (l1 ++ x :: l2) (insert_everywhere x (l1 ++ l2)).
Proof.
  induction l1 as [|y l1 IH]; simpl.
  - destruct l2; simpl; auto.
  - right. apply in_map, IH.
Qed.

Lemma permutations_complete {A} (l l' : list A) :
  Permutation l l' -> In l (permutations l').
Proof.
  revert l. induction l' as [|x l' IH]; intros l H; simpl.
  - apply Permutation_sym, Permutation_nil in H. now left.
  - destruct (Permutation_vs_cons_inv H) as (l1 & l2 & ->).
    apply Permutation_sym, Permutation_cons_app_inv, Permutation_sym in H.
    apply in_flat_map. exists (l1 ++ l2). split; [now apply IH|].
    apply in_insert_everywhere.
Qed.

Lemma combinations2_map {A B} (f : A -> B) (l : list A) :
  Py.combinations2 (map f l) =
  map (fun p => (f (fst p), f (snd p))) (Py.combinations2 l).
Proof.
  induction l as [|x l IH]; simpl; [reflexivity|].
  now rewrite map_app, !map_map, IH.
Qed.

Lemma lookup_well_formed (d : pos_dict) (k : node) (c : coord) :
  well_formed d -> In (k, c) d -> lookup k d = Some c.
Proof.
  unfold well_formed, keys.
  induction d as [|[k' c'] d IH]; simpl; [tauto|].
  intros Hd [E | H].
  - inversion E; subst. now rewrite Z.eqb_refl.
  - inversion Hd as [|? ? Hk Hd']; subst.
    destruct (Z.eqb_spec k k') as [-> | _]; [|now apply IH].
    exfalso. apply Hk. apply in_map_iff. now exists (k', c).
Qed.

Lemma distance_list_direct (d : pos_dict) :
  well_formed d -> distance_list d = map entry_direct (Py.combinations2 d).
Proof.
  intros Hd. unfold distance_list, candidate_pairs, keys.
  rewrite combinations2_map, map_map. apply map_ext_in.
  intros [[u [x1 y1]] [v [x2 y2]]] H. apply in_combinations2 in H.
  destruct H as [Hu Hv]. unfold entry_of, pair_distance, entry_direct. simpl.
  now rewrite (lookup_well_formed d u _ Hd Hu), (lookup_well_formed d v _ Hd Hv).
Qed.

(** On the coordinates of the scenario the squares taken are those of 0,
    1, 9 and 10 and of their opposites. *)
Lemma scenario_distance (x1 y1 x2 y2 : float) :
  exact_squares [0; 1; 9; 10]%float ->
  In (x1, y1) [(0, 0); (1, 0); (0, 1); (10, 10)]%float ->
  In (x2, y2) [(0, 0); (1, 0); (0, 1); (10, 10)]%float ->
  euclidean_distance x1 y1 x2 y2 = product_distance x1 y1 x2 y2.
Proof.
  intros Hx H1 H2.
  assert (E0 : pow2 0 = 0%float) by (rewrite Hx; [reflexivity|simpl; auto]).
  assert (E1 : pow2 1 = 1%float) by (rewrite Hx; [reflexivity|simpl; auto]).
  assert (E9 : pow2 9 = 81%float) by (rewrite Hx; [reflexivity|simpl; auto]).
  assert (E10 : pow2 10 = 100%float) by (rewrite Hx; [reflexivity|simpl; auto]).
  assert (F1 : pow2 (-1) = 1%float)
    by (change (pow2 (-1)) with (pow2 (PrimFloat.opp 1)); now rewrite pow2_even).
  assert (F9 : pow2 (-9) = 81%float)
    by (change (pow2 (-9)) with (pow2 (PrimFloat.opp 9)); now rewrite pow2_even).
  assert (F10 : pow2 (-10) = 100%float)
    by (change (pow2 (-10)) with (pow2 (PrimFloat.opp 10)); now rewrite pow2_even).
  unfold euclidean_distance, product_distance.
  simpl in H1, H2.
  destruct H1 as [H1 | [H1 | [H1 | [H1 | []]]]]; inversion H1; subst x1 y1;
    destruct H2 as [H2 | [H2 | [H2 | [H2 | []]]]]; inversion H2; subst x2 y2;
    repeat match goal with
           | |- context [pow2 ?x] =>
               let v := eval vm_compute in x in progress change x with v
           end;
    rewrite ?E0, ?E1, ?E9, ?E10, ?F1, ?F9, ?F10; reflexivity.
Qed.

(** The scenario of C9 for every square that is exact on 0, 1, 9 and 10. *)
Lemma scenario_exact_squares (a b c e : node) (G : Nx.Graph) (d : pos_dict) :
  exact_squares [0; 1; 9; 10]%float ->
  NoDup [a; b; c; e] -> edgeless G -> Permutation d (scenario_pos a b c e) ->
  exists G',
    returns G d 2 G' /\
    Nx.number_of_edges G' = 2 /\
    Nx.has_edge G' a b = true /\ Nx.has_edge G' a c = true /\
    pair_distance d a b = Some 1%float /\ pair_distance d a c = Some 1%float /\
    (forall u v, In (u, v) (Nx.edges G') ->
       (u, v) = (a, b) \/ (u, v) = (b, a) \/ (u, v) = (a, c) \/ (u, v) = (c, a)) /\
    (forall u v, In (u, v) (Nx.edges G') -> u <> e /\ v <> e).
Proof.
  intros Hx Hids HG Hp.
  assert (Hd : well_formed d).
  { unfold well_formed, keys.
    eapply Permutation_NoDup; [apply Permutation_map, Permutation_sym, Hp|].
    exact Hids. }
  assert (Hin : forall k x, In (k, x) (scenario_pos a b c e) -> lookup k d = Some x).
  { intros k x H. apply lookup_well_formed; [exact Hd|].
    eapply Permutation_in; [apply Permutation_sym, Hp|exact H]. }
  assert (Ea : lookup a d = Some (0, 0)%float) by (apply Hin; simpl; auto).
  assert (Eb : lookup b d = Some (1, 0)%float) by (apply Hin; simpl; auto).
  assert (Ec : lookup c d = Some (0, 1)%float) by (apply Hin; simpl; auto).
  assert (Hlen : total_pairs d = 6).
  { unfold total_pairs. now rewrite (Permutation_length Hp). }
  assert (Hne : a <> e /\ b <> e /\ c <> e).
  { inversion Hids as [|? ? Ha H1]; subst. inversion H1 as [|? ? Hb H2]; subst.
    inversion H2 as [|? ? Hc _]; subst. simpl in Ha, Hb, Hc.
    repeat split; intros ->; tauto. }
  assert (Hcoord : forall k x y, In (k, (x, y)) d ->
                     In (x, y) [(0, 0); (1, 0); (0, 1); (10, 10)]%float).
  { intros k x y H. apply (Permutation_in _ Hp) in H.
    apply (in_map snd) in H. exact H. }
  assert (Hentry : map entry_direct (Py.combinations2 d)
                   = map product_entry (Py.combinations2 d)).
  { apply map_ext_in. intros [[u [x1 y1]] [v [x2 y2]]] H.
    apply in_combinations2 in H. destruct H as [Hu Hv].
    unfold entry_direct, product_entry. simpl.
    rewrite (scenario_distance x1 y1 x2 y2 Hx (Hcoord _ _ _ Hu) (Hcoord _ _ _ Hv)).
    reflexivity. }
  pose proof (final_edges G d 2 Hd HG) as HE.
  unfold ordered_pairs, sorted_list in HE.
  rewrite (distance_list_direct d Hd), Hentry in HE.
  exists (final_graph G d 2).
  split; [apply returns_valid; lia|].
  unfold Nx.number_of_edges. rewrite has_edge_In, has_edge_In.
  unfold pair_distance. rewrite Ea, Eb, Ec.
  rewrite (scenario_distance 0 0 1 0 Hx), (scenario_distance 0 0 0 1 Hx)
    by (simpl; auto).
  revert HE. generalize (Nx.edges (final_graph G d 2)). intros E HE.
  apply permutations_complete in Hp. simpl in Hp.
  repeat (destruct Hp as [<- | Hp]; [vm_compute in HE; subst E|]);
    try contradiction;
    (split; [reflexivity|]);
    (split; [simpl; tauto|]); (split; [simpl; tauto|]);
    (split; [vm_compute; reflexivity|]); (split; [vm_compute; reflexivity|]);
    (split; intros u v [H | [H | []]]; inversion H; subst; tauto).
Qed.

(** ** C10: a negative target *)

(** C10: for every mapping and every negative [n_edges] the call returns
    the supplied graph as it was and raises nothing. *)
Theorem negative_target (G : Nx.Graph) (d : pos_dict) (n : Z) :
  n < 0 -> call G d n = (Ok G, mkHeap G d).
Proof.
  intros H. rewrite call_eq. simpl.
  replace (Z.to_nat n) with 0%nat by lia. simpl.
  destruct (Z.leb_spec n (Z.of_nat (length (ordered_pairs d)))); [reflexivity|lia].
Qed.

End ReconstructorFacts.

(** * Ranking nodes by centrality *)

Example get_top_central_nodes_run :
  get_top_central_nodes example_centralities 2 =
  [("betweenness"%string, [1; 3]); ("degree"%string, [4; 1])].
Proof. vm_compute. reflexivity. Qed.

(** ** Lists: sorted, reversed, cut *)

Lemma precedes_head {A} (a b : A) (l : list A) : In b l -> precedes a b (a :: l).
Proof. intros H. exists [], l. now split. Qed.

Lemma precedes_cons {A} (a b x : A) (l : list A) :
  precedes a b l -> precedes a b (x :: l).
Proof. intros (l1 & l2 & -> & H). exists (x :: l1), l2. now split. Qed.

Lemma precedes_inv {A} (a b x : A) (l : list A) :
  precedes a b (x :: l) -> (x = a /\ In b l) \/ precedes a b l.
Proof.
  intros ([|y l1] & l2 & E & H); inversion E; subst.
  - now left.
  - right. now exists l1, l2.
Qed.

Lemma precedes_rev {A} (a b : A) (l : list A) :
  precedes a b l -> precedes b a (rev l).
Proof.
  intros (l1 & l2 & -> & H). rewrite rev_app_distr. simpl.
  apply in_rev, in_split in H. destruct H as (m1 & m2 & E).
  rewrite E, <- !app_assoc. simpl.
  exists m1, (m2 ++ a :: rev l1). split; [reflexivity|].
  apply in_or_app. right. now left.
Qed.

Lemma precedes_map {A B} (f : A -> B) (a b : A) (l : list A) :
  precedes a b l -> precedes (f a) (f b) (map f l).
Proof.
  intros (l1 & l2 & -> & H). rewrite map_app. simpl.
  exists (map f l1), (map f l2). split; [reflexivity|now apply in_map].
Qed.

Lemma NoDup_app_disjoint {A} (l1 l2 : list A) (x : A) :
  NoDup (l1 ++ l2) -> In x l1 -> In x l2 -> False.
Proof.
  induction l1 as [|y l1 IH]; simpl; [tauto|].
  intros Hnd [-> | H1] H2; inversion Hnd as [|? ? Hy Hnd']; subst.
  - apply Hy, in_or_app. now right.
  - now apply IH.
Qed.

Lemma precedes_firstn {A} (a b : A) (l : list A) (k : nat) :
  NoDup l -> precedes a b l -> In b (firstn k l) -> precedes a b (firstn k l).
Proof.
  intros Hnd (l1 & l2 & -> & H) Hb.
  assert (Hb1 : ~ In b l1).
  { intros Hb1. apply (NoDup_app_disjoint _ _ b Hnd Hb1). now right. }
  assert (Hba : b <> a).
  { intros ->. apply NoDup_app_remove_l in Hnd. now inversion Hnd. }
  rewrite firstn_app in *. apply in_app_or in Hb.
  destruct Hb as [Hb | Hb]; [now apply in_firstn in Hb|].
  destruct (k - length l1)%nat as [|j] eqn:Ej; [contradiction|].
  simpl in Hb. destruct Hb as [Hb | Hb]; [congruence|].
  rewrite firstn_all2 by lia. simpl.
  exists l1, (firstn j l2). now split.
Qed.

(** A stable sort keeps [a] before [b] unless [b]'s key is smaller. *)
Section Stable.
Context {A K : Type} (ltb : K -> K -> bool) (key : A -> K).

Lemma insert_keeps (x a b : A) (s : list A) :
  precedes a b s -> precedes a b (Py.insert ltb key x s).
Proof.
  induction s as [|y s IH]; intros H.
  - destruct H as ([|? ?] & ? & E & _); discriminate.
  - simpl. destruct (ltb (key y) (key x)); [|now apply precedes_cons].
    apply precedes_inv in H. destruct H as [[-> H] | H].
    + apply precedes_head.
      eapply Permutation_in; [symmetry; apply insert_perm|]. now right.
    + now apply precedes_cons, IH.
Qed.

Lemma insert_before (a b : A) (s : list A) :
  In b s -> ltb (key b) (key a) = false -> precedes a b (Py.insert ltb key a s).
Proof.
  intros Hb Hab. induction s as [|y s IH]; [contradiction|]. simpl.
  destruct (ltb (key y) (key a)) eqn:E; [|now apply precedes_head].
  apply precedes_cons, IH. destruct Hb as [-> | Hb]; [congruence|exact Hb].
Qed.

Lemma sort_stable (a b : A) (l : list A) :
  precedes a b l -> ltb (key b) (key a) = false ->
  precedes a b (Py.sort ltb key l).
Proof.
  intros (l1 & l2 & -> & Hb) Hab. induction l1 as [|x l1 IH]; simpl.
  - apply insert_before; [|exact Hab].
    eapply Permutation_in; [symmetry; apply sort_perm|exact Hb].
  - now apply insert_keeps.
Qed.

Lemma sorted_reverse_perm (l : list A) : Permutation (sorted_reverse ltb key l) l.
Proof.
  unfold sorted_reverse. rewrite <- Permutation_rev, sort_perm.
  symmetry. apply Permutation_rev.
Qed.

(** With [reverse=True], [a] stays before [b] unless [b]'s key is greater. *)
Lemma sorted_reverse_stable (a b : A) (l : list A) :
  precedes a b l -> ltb (key a) (key b) = false ->
  precedes a b (sorted_reverse ltb key l).
Proof.
  intros H Hab. unfold sorted_reverse.
  apply precedes_rev, sort_stable; [now apply precedes_rev|exact Hab].
Qed.

(** Sortedness when [<] is consistent on the keys that occur. *)
Variable P : K -> Prop.
Hypothesis P_asym : forall a b, P a -> P b -> ltb a b = true -> ltb b a = false.
Hypothesis P_negtrans :
  forall a b c, P a -> P b -> P c ->
                ltb b a = false -> ltb c b = false -> ltb c a = false.

Lemma insert_sorted_on (x : A) (s : list A) :
  P (key x) -> Forall (fun y => P (key y)) s ->
  StronglySorted (Py.ordered ltb key) s ->
  StronglySorted (Py.ordered ltb key) (Py.insert ltb key x s).
Proof.
  intros Px Hg Hs. induction Hs as [|y s Hs IH Hy]; simpl.
  - repeat constructor.
  - inversion Hg as [|? ? Gy Gs]; subst.
    destruct (ltb (key y) (key x)) eqn:E.
    + constructor; [auto|].
      eapply Permutation_Forall; [symmetry; apply insert_perm|].
      constructor; [|assumption]. now apply P_asym.
    + constructor; [now constructor|].
      constructor; [exact E|].
      rewrite Forall_forall in Hy, Gs. apply Forall_forall. intros z Hz.
      apply (P_negtrans (key x) (key y) (key z)); auto. now apply Hy.
Qed.

Lemma sort_sorted_on (l : list A) :
  Forall (fun y => P (key y)) l ->
  StronglySorted (Py.ordered ltb key) (Py.sort ltb key l).
Proof.
  induction 1 as [|x l Hx Hl IH]; simpl; [constructor|].
  apply insert_sorted_on; [assumption| |assumption].
  eapply Permutation_Forall; [symmetry; apply sort_perm|assumption].
Qed.

(** In the result of [sorted(..., reverse=True)] no element has a key
    smaller than that of a later one. *)
Lemma sorted_reverse_descending (l : list A) (a b : A) :
  Forall (fun y => P (key y)) l ->
  precedes a b (sorted_reverse ltb key l) -> ltb (key a) (key b) = false.
Proof.
  intros Hl H. unfold sorted_reverse in H.
  apply precedes_rev in H. rewrite rev_involutive in H.
  destruct H as (l1 & l2 & E & Ha).
  assert (Hs : StronglySorted (Py.ordered ltb key) (Py.sort ltb key (rev l))).
  { apply sort_sorted_on. apply Forall_rev. exact Hl. }
  rewrite E in Hs.
  change (Py.ordered ltb key b a).
  apply (sorted_app_ordered _ (l1 ++ [b]) l2 b a); [|apply in_or_app; simpl; auto|exact Ha].
  now rewrite <- app_assoc.
Qed.
End Stable.

(** ** The dict of top nodes *)

Lemma dict_set_fresh {V} (k : string) (v : V) (d : list (string * V)) :
  ~ In k (map fst d) -> dict_set k v d = d ++ [(k, v)].
Proof.
  induction d as [|[k' v'] d IH]; simpl; [reflexivity|].
  intros H. destruct (String.eqb_spec k k') as [-> | _]; [tauto|].
  rewrite IH; tauto.
Qed.

Lemma dict_get_In {V} (k : string) (v : V) (d : list (string * V)) :
  NoDup (map fst d) -> In (k, v) d -> dict_get k d = Some v.
Proof.
  induction d as [|[k' v'] d IH]; simpl; [tauto|].
  intros Hd [E | H].
  - inversion E; subst. now rewrite String.eqb_refl.
  - inversion Hd as [|? ? Hk Hd']; subst.
    destruct (String.eqb_spec k k') as [-> | _]; [|now apply IH].
    exfalso. apply Hk. apply in_map_iff. now exists (k', v).
Qed.

Lemma get_top_central_nodes_eq (cd : centrality_dict) (top_n : Z) :
  NoDup (map fst cd) ->
  get_top_central_nodes cd top_n =
  map (fun mv => (fst mv, top_of (snd mv) top_n)) cd.
Proof.
  unfold get_top_central_nodes.
  change (map (fun mv => (fst mv, top_of (snd mv) top_n)) cd)
    with ([] ++ map (fun mv => (fst mv, top_of (snd mv) top_n)) cd).
  assert (H : forall k, In k (map fst (@nil (string * list node))) -> ~ In k (map fst cd))
    by (simpl; tauto).
  revert H. generalize (@nil (string * list node)) as acc.
  induction cd as [|[m vals] cd IH]; intros acc Hacc Hnd; simpl.
  - now rewrite app_nil_r.
  - inversion Hnd as [|? ? Hm Hnd']; subst.
    rewrite dict_set_fresh by (intros H; apply (Hacc m H); now left).
    rewrite IH; [now rewrite <- app_assoc| |exact Hnd'].
    intros k. rewrite map_app, in_app_iff. simpl. intros [H | [<- | []]] H'.
    + apply (Hacc k H). now right.
    + contradiction.
Qed.

Lemma top_nodes_get (cd : centrality_dict) (top_n : Z) (metric : string)
    (values : values_dict) :
  NoDup (map fst cd) -> In (metric, values) cd ->
  dict_get metric (get_top_central_nodes cd top_n) = Some (top_of values top_n).
Proof.
  intros Hnd Hin. rewrite get_top_central_nodes_eq by exact Hnd.
  apply dict_get_In.
  - rewrite map_map. simpl. exact Hnd.
  - apply in_map_iff. now exists (metric, values).
Qed.

Lemma slice_to_firstn {A} (l : list A) (k : Z) :
  exists j, slice_to l k = firstn j l.
Proof. unfold slice_to. destruct (k <? 0); eauto. Qed.

Lemma slice_to_length {A} (l : list A) (k : Z) :
  Z.of_nat (length (slice_to l k)) =
  if k <? 0 then Z.max 0 (Z.of_nat (length l) + k) else Z.min k (Z.of_nat (length l)).
Proof.
  unfold slice_to. destruct (Z.ltb_spec k 0); rewrite length_firstn; lia.
Qed.

Lemma value_of_In (values : values_dict) (k : node) (v : num) :
  NoDup (map fst values) -> In (k, v) values -> value_of k values = Some v.
Proof.
  induction values as [|[k' v'] d IH]; simpl; [tauto|].
  intros Hd [E | H].
  - inversion E; subst. now rewrite Z.eqb_refl.
  - inversion Hd as [|? ? Hk Hd']; subst.
    destruct (Z.eqb_spec k k') as [-> | _]; [|now apply IH].
    exfalso. apply Hk. apply in_map_iff. now exists (k', v).
Qed.

Lemma precedes_split {A} (x y : A) (l : list A) (k : nat) :
  In x (firstn k l) -> In y (skipn k l) -> precedes x y l.
Proof.
  intros Hx Hy. apply in_split in Hx. destruct Hx as (m1 & m2 & E).
  exists m1, (m2 ++ skipn k l). split; [|apply in_or_app; now right].
  rewrite <- (firstn_skipn k l) at 1. rewrite E, <- app_assoc. reflexivity.
Qed.

Lemma precedes_prefix {A} (x y : A) (l : list A) (k : nat) :
  precedes x y (firstn k l) -> precedes x y l.
Proof.
  intros (m1 & m2 & E & H). exists m1, (m2 ++ skipn k l).
  split; [|apply in_or_app; now left].
  rewrite <- (firstn_skipn k l) at 1. rewrite E, <- app_assoc. reflexivity.
Qed.

Lemma precedes_map_inv {A B} (f : A -> B) (a b : B) (l : list A) :
  precedes a b (map f l) ->
  exists x y, f x = a /\ f y = b /\ precedes x y l.
Proof.
  intros (m1 & m2 & E & H).
  apply map_eq_app in E. destruct E as (l1 & l2' & -> & <- & E).
  apply map_eq_cons in E. destruct E as (x & l2 & -> & <- & <-).
  apply in_map_iff in H. destruct H as (y & <- & Hy).
  exists x, y. repeat split. now exists l1, l2.
Qed.

Lemma comparable_descending (values : values_dict) (x y : node * num) :
  comparable values = true ->
  precedes x y (sorted_reverse num_lt snd values) ->
  num_lt (snd x) (snd y) = false.
Proof.
  unfold comparable. rewrite orb_true_iff, !forallb_forall. intros [H | H].
  - apply (sorted_reverse_descending num_lt snd (fun k => exists z, k = PyInt z)).
    + intros a b [za ->] [zb ->]. simpl. lia.
    + intros a b c [za ->] [zb ->] [zc ->]. simpl. lia.
    + apply Forall_forall. intros kv Hkv. apply H in Hkv.
      destruct (snd kv); [eauto|discriminate].
  - apply (sorted_reverse_descending num_lt snd
             (fun k => exists f, k = PyFloat f /\ is_nan f = false)).
    + intros a b (fa & -> & _) (fb & -> & _). simpl. apply float_ltb_asym.
    + intros a b c (fa & -> & _) (fb & -> & Hb) (fc & -> & _). simpl.
      now apply float_ltb_negtrans.
    + apply Forall_forall. intros kv Hkv. apply H in Hkv.
      destruct (snd kv) as [|f]; [discriminate|].
      exists f. split; [reflexivity|]. now destruct (is_nan f).
Qed.

Lemma NoDup_items (values : values_dict) :
  NoDup (map fst values) -> NoDup values.
Proof. apply NoDup_map_inv. Qed.

(** ** Properties of [get_top_central_nodes] *)

(** X1: the result has the metrics of the input, in the same order, and
    for each metric a list of min(top_n, n) nodes, n being the number of
    nodes that have a value; a negative [top_n] is no error but a slice from
    the end: it leaves out the last [-top_n] nodes of the ranking. *)
Theorem top_nodes_length (cd : centrality_dict) (top_n : Z) (metric : string)
    (values : values_dict) :
  NoDup (map fst cd) -> In (metric, values) cd ->
  map fst (get_top_central_nodes cd top_n) = map fst cd /\
  exists l,
    dict_get metric (get_top_central_nodes cd top_n) = Some l /\
    Z.of_nat (length l) =
    if top_n <? 0 then Z.max 0 (Z.of_nat (length values) + top_n)
    else Z.min top_n (Z.of_nat (length values)).
Proof.
  intros Hnd Hin. split.
  - rewrite get_top_central_nodes_eq by exact Hnd. now rewrite map_map.
  - exists (top_of values top_n). split; [now apply top_nodes_get|].
    unfold top_of. rewrite length_map, slice_to_length.
    now rewrite (Permutation_length (sorted_reverse_perm num_lt snd values)).
Qed.

(** X2: the nodes listed for a metric are nodes that have a value for it,
    none is listed twice, and when [top_n] is at least the number of nodes
    all of them are listed. *)
Theorem top_nodes_members (cd : centrality_dict) (top_n : Z) (metric : string)
    (values : values_dict) (l : list node) :
  NoDup (map fst cd) -> In (metric, values) cd -> NoDup (map fst values) ->
  dict_get metric (get_top_central_nodes cd top_n) = Some l ->
  NoDup l /\ incl l (map fst values) /\
  (Z.of_nat (length values) <= top_n -> Permutation l (map fst values)).
Proof.
  intros Hnd Hin Hv Hl. rewrite (top_nodes_get cd top_n metric values Hnd Hin) in Hl.
  inversion Hl; subst l. unfold top_of.
  pose proof (sorted_reverse_perm num_lt snd values) as Hp.
  assert (Hs : NoDup (map fst (sorted_reverse num_lt snd values))).
  { eapply Permutation_NoDup; [apply Permutation_map, Permutation_sym, Hp|exact Hv]. }
  destruct (slice_to_firstn (sorted_reverse num_lt snd values) top_n) as [j Ej].
  split; [|split].
  - rewrite Ej, <- firstn_map.
    rewrite <- (firstn_skipn j (map fst _)) in Hs.
    now apply NoDup_app_remove_r in Hs.
  - rewrite Ej. intros k Hk. apply in_map_iff in Hk. destruct Hk as (kv & <- & Hkv).
    apply in_firstn in Hkv. apply in_map. eapply Permutation_in; eassumption.
  - intros Hlen. unfold slice_to.
    destruct (Z.ltb_spec top_n 0); [lia|].
    rewrite firstn_all2; [now apply Permutation_map|].
    rewrite (Permutation_length Hp). lia.
Qed.

(** X3: when the values of a metric can be ordered, no node that is left
    out has a value greater than that of a listed node, and the list is in
    descending order of value. *)
Theorem top_nodes_highest (cd : centrality_dict) (top_n : Z) (metric : string)
    (values : values_dict) (l : list node) :
  NoDup (map fst cd) -> In (metric, values) cd -> NoDup (map fst values) ->
  comparable values = true ->
  dict_get metric (get_top_central_nodes cd top_n) = Some l ->
  (forall a b va vb,
     In a l -> ~ In b l ->
     value_of a values = Some va -> value_of b values = Some vb ->
     num_lt va vb = false) /\
  (forall a b va vb,
     precedes a b l ->
     value_of a values = Some va -> value_of b values = Some vb ->
     num_lt va vb = false).
Proof.
  intros Hnd Hin Hv Hc Hl. rewrite (top_nodes_get cd top_n metric values Hnd Hin) in Hl.
  inversion Hl; subst l. unfold top_of.
  set (s := sorted_reverse num_lt snd values).
  pose proof (sorted_reverse_perm num_lt snd values) as Hp. fold s in Hp.
  destruct (slice_to_firstn s top_n) as [j Ej]. rewrite Ej.
  assert (Hval : forall kv, In kv s -> value_of (fst kv) values = Some (snd kv)).
  { intros [k v] H. apply value_of_In; [exact Hv|].
    eapply Permutation_in; eassumption. }
  assert (Hhas : forall b vb, value_of b values = Some vb -> In (b, vb) s).
  { intros b vb H. eapply Permutation_in; [symmetry; exact Hp|].
    clear -H. induction values as [|[k v] d IH]; simpl in *; [discriminate|].
    destruct (Z.eqb_spec b k) as [-> | _]; [inversion H; now left|right; auto]. }
  split.
  - intros a b va vb Ha Hb Ea Eb.
    apply in_map_iff in Ha. destruct Ha as ([a' va'] & <- & Ha). simpl in *.
    assert (Hb' : In (b, vb) (skipn j s)).
    { apply Hhas in Eb. rewrite <- (firstn_skipn j s) in Eb.
      apply in_app_or in Eb. destruct Eb as [Eb | Eb]; [|exact Eb].
      exfalso. apply Hb. apply in_map_iff. now exists (b, vb). }
    pose proof (Hval _ (in_firstn _ _ _ Ha)) as Ea'. simpl in Ea'.
    assert (va' = va) by congruence. subst va'.
    exact (comparable_descending values (a', va) (b, vb) Hc (precedes_split _ _ _ _ Ha Hb')).
  - intros a b va vb Hab Ea Eb.
    apply precedes_map_inv in Hab. destruct Hab as ([a' va'] & [b' vb'] & <- & <- & Hab).
    simpl in *. apply precedes_prefix in Hab.
    assert (Ha' : In (a', va') s) by (destruct Hab as (? & ? & -> & _); apply in_elt).
    assert (Hb' : In (b', vb') s).
    { destruct Hab as (? & ? & -> & H). apply in_or_app. right. now right. }
    apply Hval in Ha', Hb'. simpl in Ha', Hb'.
    assert (va' = va) by congruence. assert (vb' = vb) by congruence. subst.
    exact (comparable_descending values (a', va) (b', vb) Hc Hab).
Qed.

(** X4: when the values of a metric can be ordered (all ints, or all
    floats and none NaN), ties are broken by the order of the dict: when [a]
    stands before [b] in [values] and the value of [a] is not smaller than
    that of [b], then [b] is not listed without [a], and [a] is listed
    first. *)
Theorem top_nodes_stable (cd : centrality_dict) (top_n : Z) (metric : string)
    (values : values_dict) (l : list node) (a b : node) (va vb : num) :
  NoDup (map fst cd) -> In (metric, values) cd -> NoDup (map fst values) ->
  comparable values = true ->
  dict_get metric (get_top_central_nodes cd top_n) = Some l ->
  precedes (a, va) (b, vb) values -> num_lt va vb = false ->
  In b l -> precedes a b l.
Proof.
  intros Hnd Hin Hv _ Hl Hab Hlt Hb.
  rewrite (top_nodes_get cd top_n metric values Hnd Hin) in Hl.
  inversion Hl; subst l. unfold top_of in *.
  set (s := sorted_reverse num_lt snd values) in *.
  pose proof (sorted_reverse_perm num_lt snd values) as Hp. fold s in Hp.
  destruct (slice_to_firstn s top_n) as [j Ej]. rewrite Ej in *.
  assert (Hs : precedes (a, va) (b, vb) s)
    by (apply sorted_reverse_stable; assumption).
  assert (Hnds : NoDup s).
  { eapply Permutation_NoDup; [symmetry; exact Hp|now apply NoDup_items]. }
  apply in_map_iff in Hb. destruct Hb as ([b' vb'] & Eb & Hb). simpl in Eb. subst b'.
  assert (vb' = vb).
  { assert (H1 : In (b, vb') values)
      by (eapply Permutation_in; [exact Hp|eapply in_firstn; exact Hb]).
    assert (H2 : In (b, vb) values).
    { destruct Hab as (? & ? & -> & H). apply in_or_app. right. now right. }
    apply (value_of_In _ _ _ Hv) in H1, H2. congruence. }
  subst vb'.
  apply (precedes_map fst (a, va) (b, vb)).
  now apply precedes_firstn.
Qed.

Lemma top_nodes_length_witness :
  (NoDup (map fst example_centralities) /\
   In ("degree"%string, [(1, PyInt 2); (2, PyInt 1); (3, PyInt 2); (4, PyInt 3)])
      example_centralities) /\
  map fst (get_top_central_nodes example_centralities 2) = map fst example_centralities /\
  exists l,
    dict_get "degree" (get_top_central_nodes example_centralities 2) = Some l /\
    Z.of_nat (length l) =
    if 2 <? 0
    then Z.max 0 (Z.of_nat (length [(1, PyInt 2); (2, PyInt 1); (3, PyInt 2); (4, PyInt 3)]) + 2)
    else Z.min 2 (Z.of_nat (length [(1, PyInt 2); (2, PyInt 1); (3, PyInt 2); (4, PyInt 3)])).
Proof.
  assert (H1 : NoDup (map fst example_centralities)) by distinct_names.
  assert (H2 : In ("degree"%string, [(1, PyInt 2); (2, PyInt 1); (3, PyInt 2); (4, PyInt 3)])
                  example_centralities) by (simpl; auto).
  split; [now split|]. exact (top_nodes_length example_centralities 2 _ _ H1 H2).
Defined.

Lemma top_nodes_members_witness :
  (NoDup (map fst example_centralities) /\
   In ("degree"%string, [(1, PyInt 2); (2, PyInt 1); (3, PyInt 2); (4, PyInt 3)])
      example_centralities /\
   NoDup (map fst [(1, PyInt 2); (2, PyInt 1); (3, PyInt 2); (4, PyInt 3)]) /\
   dict_get "degree" (get_top_central_nodes example_centralities 2) = Some [4; 1]) /\
  NoDup [4; 1] /\
  incl [4; 1] (map fst [(1, PyInt 2); (2, PyInt 1); (3, PyInt 2); (4, PyInt 3)]) /\
  (Z.of_nat (length [(1, PyInt 2); (2, PyInt 1); (3, PyInt 2); (4, PyInt 3)]) <= 2 ->
   Permutation [4; 1] (map fst [(1, PyInt 2); (2, PyInt 1); (3, PyInt 2); (4, PyInt 3)])).
Proof.
  assert (H1 : NoDup (map fst example_centralities)) by distinct_names.
  assert (H2 : In ("degree"%string, [(1, PyInt 2); (2, PyInt 1); (3, PyInt 2); (4, PyInt 3)])
                  example_centralities) by (simpl; auto).
  assert (H3 : NoDup (map fst [(1, PyInt 2); (2, PyInt 1); (3, PyInt 2); (4, PyInt 3)]))
    by (simpl; repeat (constructor; [simpl; lia|]); constructor).
  assert (H4 : dict_get "degree" (get_top_central_nodes example_centralities 2) = Some [4; 1])
    by reflexivity.
  split; [repeat split; assumption|].
  exact (top_nodes_members example_centralities 2 _ _ _ H1 H2 H3 H4).
Defined.

Lemma top_nodes_highest_witness :
  (NoDup (map fst example_centralities) /\
   In ("betweenness"%string,
       [(1, PyFloat 0.5); (2, PyFloat 0); (3, PyFloat 0.5); (4, PyFloat 0.25)])
      example_centralities /\
   NoDup (map fst [(1, PyFloat 0.5); (2, PyFloat 0); (3, PyFloat 0.5); (4, PyFloat 0.25)]) /\
   comparable [(1, PyFloat 0.5); (2, PyFloat 0); (3, PyFloat 0.5); (4, PyFloat 0.25)] = true /\
   dict_get "betweenness" (get_top_central_nodes example_centralities 2) = Some [1; 3]) /\
  (forall a b va vb,
     In a [1; 3] -> ~ In b [1; 3] ->
     value_of a [(1, PyFloat 0.5); (2, PyFloat 0); (3, PyFloat 0.5); (4, PyFloat 0.25)] = Some va ->
     value_of b [(1, PyFloat 0.5); (2, PyFloat 0); (3, PyFloat 0.5); (4, PyFloat 0.25)] = Some vb ->
     num_lt va vb = false) /\
  (forall a b va vb,
     precedes a b [1; 3] ->
     value_of a [(1, PyFloat 0.5); (2, PyFloat 0); (3, PyFloat 0.5); (4, PyFloat 0.25)] = Some va ->
     value_of b [(1, PyFloat 0.5); (2, PyFloat 0); (3, PyFloat 0.5); (4, PyFloat 0.25)] = Some vb ->
     num_lt va vb = false).
Proof.
  assert (H1 : NoDup (map fst example_centralities)) by distinct_names.
  assert (H2 : In ("betweenness"%string,
                   [(1, PyFloat 0.5); (2, PyFloat 0); (3, PyFloat 0.5); (4, PyFloat 0.25)])
                  example_centralities) by (simpl; auto).
  assert (H3 : NoDup (map fst [(1, PyFloat 0.5); (2, PyFloat 0); (3, PyFloat 0.5);
                               (4, PyFloat 0.25)]))
    by (simpl; repeat (constructor; [simpl; lia|]); constructor).
  assert (H4 : comparable [(1, PyFloat 0.5); (2, PyFloat 0); (3, PyFloat 0.5);
                           (4, PyFloat 0.25)] = true) by reflexivity.
  assert (H5 : dict_get "betweenness" (get_top_central_nodes example_centralities 2)
               = Some [1; 3]) by reflexivity.
  split; [repeat split; assumption|].
  exact (top_nodes_highest example_centralities 2 _ _ _ H1 H2 H3 H4 H5).
Defined.

Lemma top_nodes_stable_witness :
  (NoDup (map fst example_centralities) /\
   In ("degree"%string, [(1, PyInt 2); (2, PyInt 1); (3, PyInt 2); (4, PyInt 3)])
      example_centralities /\
   NoDup (map fst [(1, PyInt 2); (2, PyInt 1); (3, PyInt 2); (4, PyInt 3)]) /\
   comparable [(1, PyInt 2); (2, PyInt 1); (3, PyInt 2); (4, PyInt 3)] = true /\
   dict_get "degree" (get_top_central_nodes example_centralities 3) = Some [4; 1; 3] /\
   precedes (1, PyInt 2) (3, PyInt 2) [(1, PyInt 2); (2, PyInt 1); (3, PyInt 2); (4, PyInt 3)] /\
   num_lt (PyInt 2) (PyInt 2) = false /\
   In 3 [4; 1; 3]) /\
  precedes 1 3 [4; 1; 3].
Proof.
  assert (H1 : NoDup (map fst example_centralities)) by distinct_names.
  assert (H2 : In ("degree"%string, [(1, PyInt 2); (2, PyInt 1); (3, PyInt 2); (4, PyInt 3)])
                  example_centralities) by (simpl; auto).
  assert (H3 : NoDup (map fst [(1, PyInt 2); (2, PyInt 1); (3, PyInt 2); (4, PyInt 3)]))
    by (simpl; repeat (constructor; [simpl; lia|]); constructor).
  assert (H4 : dict_get "degree" (get_top_central_nodes example_centralities 3)
               = Some [4; 1; 3]) by reflexivity.
  assert (H5 : precedes (1, PyInt 2) (3, PyInt 2)
                 [(1, PyInt 2); (2, PyInt 1); (3, PyInt 2); (4, PyInt 3)])
    by (exists [], [(2, PyInt 1); (3, PyInt 2); (4, PyInt 3)]; split;
        [reflexivity|simpl; auto]).
  assert (H6 : num_lt (PyInt 2) (PyInt 2) = false) by reflexivity.
  assert (H7 : In 3 [4; 1; 3]) by (simpl; auto).
  assert (H8 : comparable [(1, PyInt 2); (2, PyInt 1); (3, PyInt 2); (4, PyInt 3)] = true)
    by reflexivity.
  split; [repeat split; assumption|].
  exact (top_nodes_stable example_centralities 3 _ _ _ 1 3 _ _ H1 H2 H3 H8 H4 H5 H6 H7).
Defined.

(** * The degree distribution *)

Example plot_degree_distribution_run :
  plot_degree_distribution [2; 1; 2; 5] "net"%string =
  Ok ([1; 2; 3; 4; 5], [1; 2; 0; 0; 1]).
Proof. vm_compute. reflexivity. Qed.

Lemma counter_get_set (c : counter) (x v y d : Z) :
  counter_get (counter_set x v c) y d = if Z.eqb y x then v else counter_get c y d.
Proof.
  induction c as [|[k v'] c IH]; simpl.
  - reflexivity.
  - destruct (Z.eqb_spec x k) as [-> | Hxk]; simpl.
    + destruct (Z.eqb_spec y k); reflexivity.
    + destruct (Z.eqb_spec y k) as [-> | Hyk].
      * destruct (Z.eqb_spec k x); [congruence|reflexivity].
      * exact IH.
Qed.

Lemma occurrences_cons (x : Z) (l : list Z) (k : Z) :
  occurrences (x :: l) k = (if Z.eqb k x then 1 else 0) + occurrences l k.
Proof.
  unfold occurrences. simpl.
  destruct (Z.eq_dec x k) as [-> | H].
  - rewrite Z.eqb_refl. lia.
  - destruct (Z.eqb_spec k x); [congruence|lia].
Qed.

Lemma Counter_get (l : list Z) (k : Z) :
  counter_get (Counter l) k 0 = occurrences l k.
Proof.
  unfold Counter.
  assert (H : forall c, counter_get (fold_left
              (fun c elem => counter_set elem (counter_get c elem 0 + 1) c) l c) k 0
            = counter_get c k 0 + occurrences l k).
  { induction l as [|x l IH]; intros c; simpl.
    - unfold occurrences. simpl. lia.
    - rewrite IH, counter_get_set, occurrences_cons.
      destruct (Z.eqb_spec k x) as [-> | _]; lia. }
  rewrite H. reflexivity.
Qed.

Lemma py_min_spec (l : list Z) (m : Z) :
  py_min l = Some m -> In m l /\ forall x, In x l -> m <= x.
Proof.
  destruct l as [|x0 r]; [discriminate|]. simpl. intros E. injection E as <-.
  assert (H : forall a, (fold_left Z.min r a = a \/ In (fold_left Z.min r a) r) /\
                        fold_left Z.min r a <= a /\
                        forall x, In x r -> fold_left Z.min r a <= x).
  { induction r as [|y r IH]; intros a; simpl.
    - split; [now left|]. split; [lia|tauto].
    - destruct (IH (Z.min a y)) as (H1 & H2 & H3).
      split; [|split].
      + destruct H1 as [H1 | H1]; [|now right; right].
        rewrite H1. destruct (Z.min_spec a y) as [[_ ->] | [_ ->]]; auto.
      + lia.
      + intros x [<- | Hx]; [lia|auto]. }
  destruct (H x0) as (H1 & H2 & H3). split.
  - destruct H1 as [-> | H1]; [now left|now right].
  - intros x [<- | Hx]; auto.
Qed.

Lemma py_max_spec (l : list Z) (m : Z) :
  py_max l = Some m -> In m l /\ forall x, In x l -> x <= m.
Proof.
  destruct l as [|x0 r]; [discriminate|]. simpl. intros E. injection E as <-.
  assert (H : forall a, (fold_left Z.max r a = a \/ In (fold_left Z.max r a) r) /\
                        a <= fold_left Z.max r a /\
                        forall x, In x r -> x <= fold_left Z.max r a).
  { induction r as [|y r IH]; intros a; simpl.
    - split; [now left|]. split; [lia|tauto].
    - destruct (IH (Z.max a y)) as (H1 & H2 & H3).
      split; [|split].
      + destruct H1 as [H1 | H1]; [|now right; right].
        rewrite H1. destruct (Z.max_spec a y) as [[_ ->] | [_ ->]]; auto.
      + lia.
      + intros x [<- | Hx]; [lia|auto]. }
  destruct (H x0) as (H1 & H2 & H3). split.
  - destruct H1 as [-> | H1]; [now left|now right].
  - intros x [<- | Hx]; auto.
Qed.

Lemma py_sum_cons (x : Z) (l : list Z) : py_sum (x :: l) = x + py_sum l.
Proof.
  unfold py_sum. simpl.
  assert (H : forall a b, fold_left Z.add l (a + b) = a + fold_left Z.add l b).
  { induction l as [|y l IH]; intros a b; simpl; [reflexivity|].
    now rewrite <- IH, Z.add_assoc. }
  rewrite <- (H x 0). f_equal. lia.
Qed.

Lemma py_sum_map_add {A} (f g : A -> Z) (l : list A) :
  py_sum (map (fun k => f k + g k) l) = py_sum (map f l) + py_sum (map g l).
Proof.
  induction l as [|x l IH]; simpl; [reflexivity|].
  rewrite !py_sum_cons, IH. lia.
Qed.

Lemma range2_length (a b : Z) : Z.of_nat (length (range2 a b)) = Z.max 0 (b - a).
Proof. unfold range2. rewrite length_map, length_seq. lia. Qed.

(** Over a range that holds [x], only the cell of [x] sees [x]. *)
Lemma py_sum_indicator (g : Z -> Z) (x a b : Z) :
  a <= x < b ->
  py_sum (map (fun k => if Z.eqb k x then g k else 0) (range2 a b)) = g x.
Proof.
  unfold range2. intros H.
  remember (Z.to_nat (b - a)) as n eqn:En.
  assert (Hx : (Z.to_nat (x - a) < n)%nat) by lia.
  assert (Hxa : x = a + Z.of_nat (Z.to_nat (x - a))) by lia.
  revert Hx Hxa. generalize (Z.to_nat (x - a)) as i. clear En H b.
  assert (G : forall n s i, (s <= i < s + n)%nat -> x = a + Z.of_nat i ->
            py_sum (map (fun k => if Z.eqb k x then g k else 0)
                      (map (fun i => a + Z.of_nat i) (seq s n))) = g x).
  { clear n. induction n as [|n IH]; intros s i Hi Ex; [lia|].
    simpl. rewrite py_sum_cons.
    destruct (Z.eqb_spec (a + Z.of_nat s) x) as [E | E].
    - rewrite E.
      assert (Z0 : py_sum (map (fun k => if Z.eqb k x then g k else 0)
                    (map (fun i => a + Z.of_nat i) (seq (S s) n))) = 0).
      { clear IH Hi. assert (Hs : (s < S s)%nat) by lia. revert Hs.
        generalize (S s) as t. induction n as [|n IHn]; intros t Ht; [reflexivity|].
        simpl. rewrite py_sum_cons, IHn by lia.
        destruct (Z.eqb_spec (a + Z.of_nat t) x); lia. }
      rewrite Z0. lia.
    - rewrite (IH (S s) i); [lia| |exact Ex].
      assert (s <> i) by (intros ->; lia). lia. }
  intros i Hi Ex. apply (G n 0%nat i); [lia|exact Ex].
Qed.

Lemma occurrences_total (g : Z -> Z) (l : list Z) (a b : Z) :
  (forall x, In x l -> a <= x < b) ->
  py_sum (map (fun k => g k * occurrences l k) (range2 a b)) = py_sum (map g l).
Proof.
  induction l as [|x l IH]; intros H; simpl.
  - unfold occurrences. simpl.
    induction (range2 a b) as [|k r IHr]; [reflexivity|].
    simpl. rewrite py_sum_cons, IHr. lia.
  - rewrite py_sum_cons, <- IH by (intros; apply H; now right).
    rewrite <- (py_sum_indicator g x a b) by (apply H; now left).
    rewrite <- py_sum_map_add. f_equal. apply map_ext. intros k.
    rewrite occurrences_cons. destruct (Z.eqb_spec k x); lia.
Qed.

Lemma plot_degree_distribution_eq (l : list Z) (name : string) (lo hi : Z) :
  py_min l = Some lo -> py_max l = Some hi ->
  plot_degree_distribution l name =
  Ok (range2 lo (hi + 1), map (occurrences l) (range2 lo (hi + 1))).
Proof.
  intros Elo Ehi. unfold plot_degree_distribution. rewrite Elo, Ehi.
  do 2 f_equal. apply map_ext. intros k. apply Counter_get.
Qed.

(** X5: an empty degree sequence makes the call raise [ValueError]; on any
    other the horizontal axis holds every integer from the smallest to the
    largest degree, also the degrees that no node has, and each cell counts
    the nodes of that degree. *)
Theorem degree_distribution_cells (l : list Z) (name : string) :
  plot_degree_distribution [] name = Raise ValueError /\
  (l <> [] ->
   exists lo hi,
     In lo l /\ In hi l /\ (forall x, In x l -> lo <= x <= hi) /\
     plot_degree_distribution l name =
     Ok (range2 lo (hi + 1), map (occurrences l) (range2 lo (hi + 1))) /\
     Z.of_nat (length (range2 lo (hi + 1))) = hi - lo + 1).
Proof.
  split; [reflexivity|]. intros Hl.
  destruct (py_min l) as [lo|] eqn:Elo; [|destruct l; [tauto|discriminate]].
  destruct (py_max l) as [hi|] eqn:Ehi; [|destruct l; [tauto|discriminate]].
  destruct (py_min_spec l lo Elo) as [Hlo Hmin].
  destruct (py_max_spec l hi Ehi) as [Hhi Hmax].
  exists lo, hi. repeat split; auto.
  - now apply plot_degree_distribution_eq.
  - rewrite range2_length. specialize (Hmin hi Hhi). lia.
Qed.

Lemma combine_map_self {A B} (f : A -> B) (l : list A) :
  combine l (map f l) = map (fun k => (k, f k)) l.
Proof. induction l as [|x l IH]; simpl; [reflexivity|now rewrite IH]. Qed.

(** X6: whenever the call draws, the two lists have the same length, the
    counts add up to the number of nodes, and the counts weighted by their
    degree add up to the sum of the degrees: no node is lost or counted
    twice. *)
Theorem degree_distribution_total (l : list Z) (name : string)
    (degree degree_count : list Z) :
  plot_degree_distribution l name = Ok (degree, degree_count) ->
  length degree = length degree_count /\
  py_sum degree_count = Z.of_nat (length l) /\
  weighted_sum degree degree_count = py_sum l.
Proof.
  intros H.
  destruct (py_min l) as [lo|] eqn:Elo;
    [|unfold plot_degree_distribution in H; rewrite Elo in H; discriminate].
  destruct (py_max l) as [hi|] eqn:Ehi;
    [|unfold plot_degree_distribution in H; rewrite Elo, Ehi in H; discriminate].
  rewrite (plot_degree_distribution_eq l name lo hi Elo Ehi) in H.
  inversion H; subst; clear H.
  destruct (py_min_spec l lo Elo) as [_ Hmin].
  destruct (py_max_spec l hi Ehi) as [_ Hmax].
  assert (Hin : forall x, In x l -> lo <= x < hi + 1).
  { intros x Hx. specialize (Hmin x Hx). specialize (Hmax x Hx). lia. }
  split; [now rewrite length_map|]. split.
  - pose proof (occurrences_total (fun _ => 1) l lo (hi + 1) Hin) as E.
    rewrite (map_ext _ (occurrences l)) in E by (intros; lia).
    rewrite E. clear. induction l as [|x l IH]; [reflexivity|].
    simpl map. rewrite py_sum_cons, IH. simpl length. lia.
  - unfold weighted_sum. rewrite combine_map_self, map_map. simpl.
    rewrite (occurrences_total (fun k => k) l lo (hi + 1) Hin).
    now rewrite map_id.
Qed.

Lemma degree_distribution_total_witness :
  plot_degree_distribution [2; 1; 2; 5] "net" = Ok ([1; 2; 3; 4; 5], [1; 2; 0; 0; 1]) /\
  length [1; 2; 3; 4; 5] = length [1; 2; 0; 0; 1] /\
  py_sum [1; 2; 0; 0; 1] = Z.of_nat (length [2; 1; 2; 5]) /\
  weighted_sum [1; 2; 3; 4; 5] [1; 2; 0; 0; 1] = py_sum [2; 1; 2; 5].
Proof.
  assert (H : plot_degree_distribution [2; 1; 2; 5] "net"
              = Ok ([1; 2; 3; 4; 5], [1; 2; 0; 0; 1])) by reflexivity.
  split; [exact H|]. exact (degree_distribution_total _ _ _ _ H).
Defined.

(** * Reading a network file *)

Example load_network_run :
  load_network_ascii example_fs "net1" = Returns (Nx.mkGraph [1; 2; 3] [(1, 2); (2, 3)]).
Proof. vm_compute. reflexivity. Qed.

Example load_network_pajek_run :
  load_network_ascii example_fs "pajek" = Hangs.
Proof. vm_compute. reflexivity. Qed.

Example load_network_short_run :
  load_network_ascii example_fs "short" = Fails IndexError.
Proof. vm_compute. reflexivity. Qed.

Example ascii_int_examples :
  map ascii_int ["12"; "-7"; "+3"; "1_000"; "_1"; "1__0"; "1_"; ""; "0x10"; " 5 "; "- 5"]%string =
  [Some 12; Some (-7); Some 3; Some 1000; None; None; None; None; None; Some 5; None].
Proof. vm_compute. reflexivity. Qed.

(** ** The graph invariant *)

Lemma graph_wf_empty : graph_wf (Nx.mkGraph [] []).
Proof. repeat split; simpl; try constructor; tauto. Qed.

Lemma add_node_wf (G : Nx.Graph) (n : node) : graph_wf G -> graph_wf (Nx.add_node G n).
Proof.
  intros H. unfold Nx.add_node.
  destruct (Nx.has_node G n) eqn:E; [exact H|].
  destruct H as (Hn & He & Hd & Ho).
  repeat split; simpl; auto.
  - apply NoDup_app; [exact Hn|repeat constructor; simpl; tauto|].
    intros x Hx [<- | []]. apply has_node_In in Hx. congruence.
  - apply in_or_app. left. now apply (He u v).
  - apply in_or_app. left. now apply (He u v).
Qed.

Lemma add_edge_wf (G : Nx.Graph) (u v : node) : graph_wf G -> graph_wf (Nx.add_edge G u v).
Proof.
  intros H.
  pose proof (add_node_wf _ v (add_node_wf _ u H)) as H1.
  unfold Nx.add_edge.
  set (G1 := Nx.add_node (Nx.add_node G u) v) in *.
  destruct (Nx.has_edge G1 u v) eqn:E; [exact H1|].
  destruct H1 as (Hn & He & Hd & Ho).
  assert (Hu : In u (Nx.nodes G1)) by (apply add_node_In; left; apply add_node_In; auto).
  assert (Hv : In v (Nx.nodes G1)) by (apply add_node_In; auto).
  assert (Hno : ~ In (u, v) (Nx.edges G1) /\ ~ In (v, u) (Nx.edges G1)).
  { split; intros Hin; apply not_true_iff_false in E; apply E, has_edge_In; auto. }
  split; [|split; [|split]]; simpl.
  - exact Hn.
  - intros a b Hin. apply in_app_or in Hin.
    destruct Hin as [Hin | [Hin | []]]; [now apply He|inversion Hin; now subst].
  - apply NoDup_app; [exact Hd|repeat constructor; simpl; tauto|].
    intros x Hx [<- | []]. tauto.
  - intros a b Hab Hne Hba. apply in_app_or in Hab, Hba.
    destruct Hab as [Hab | [Hab | []]], Hba as [Hba | [Hba | []]].
    + now apply (Ho a b).
    + inversion Hba; subst. tauto.
    + inversion Hab; subst. tauto.
    + inversion Hab; inversion Hba; subst. congruence.
Qed.

(** ** The loops of [load_network] *)

Lemma getitem_0 {A} (l : list A) (x : A) :
  Py.getitem l 0 = Some x -> exists r, l = x :: r.
Proof. destruct l as [|y r]; [discriminate|]. intros E. inversion E. eauto. Qed.

Lemma getitem_1 {A} (l : list A) (x : A) :
  Py.getitem l 1 = Some x -> exists y r, l = y :: x :: r.
Proof.
  destruct l as [|y [|z r]]; try discriminate. intros E. inversion E. eauto.
Qed.

Section LoadNetworkFacts.
Variable split : string -> list string.
Variable strip : string -> string.
Variable int_of : string -> option Z.

Lemma read_vertices_spec (vlines rest : file) (G G' : Nx.Graph) (f' : file) :
  read_vertices split int_of (length vlines) (vlines ++ rest) G = Returns (G', f') ->
  f' = rest /\ Nx.edges G' = Nx.edges G /\
  (graph_wf G -> graph_wf G') /\
  forall k, In k (Nx.nodes G') <->
            In k (Nx.nodes G) \/ exists line, In line vlines /\ declares_node split int_of line k.
Proof.
  revert G. induction vlines as [|line vlines IH]; intros G; simpl.
  - intros E. inversion E; subst. split; [reflexivity|]. split; [reflexivity|].
    split; [auto|]. intros k. split; [auto|].
    intros [Hk | (line & [] & _)]. exact Hk.
  - destruct (Py.getitem (split line) 0) as [p|] eqn:Ep; [|discriminate].
    destruct (int_of p) as [nd|] eqn:En; [|discriminate].
    intros E. apply IH in E. destruct E as (-> & Ee & Hwf & Hn).
    apply getitem_0 in Ep. destruct Ep as [r Ep].
    split; [reflexivity|]. split; [now rewrite Ee, edges_add_node|].
    split; [intros H; now apply Hwf, add_node_wf|].
    intros k. rewrite Hn, add_node_In. split.
    + intros [[H | ->] | (l & Hl & Hd)]; auto.
      * right. exists line. split; [now left|]. now exists p, r.
      * right. exists l. split; [now right|exact Hd].
    + intros [H | (l & [<- | Hl] & Hd)]; auto.
      * destruct Hd as (p' & r' & Ep' & En'). left. right. congruence.
      * right. now exists l.
Qed.

Lemma read_vertices_short (n : nat) (f : file) (G : Nx.Graph) :
  split EmptyString = [] -> (length f < n)%nat ->
  read_vertices split int_of n f G = Fails IndexError \/
  read_vertices split int_of n f G = Fails ValueError.
Proof.
  intros Hs. revert f G. induction n as [|n IH]; intros f G Hlen; [lia|].
  destruct f as [|line f]; simpl.
  - rewrite Hs. now left.
  - destruct (Py.getitem (split line) 0) as [p|]; [|now left].
    destruct (int_of p) as [nd|]; [|now right].
    apply IH. simpl in Hlen. lia.
Qed.

Lemma read_vertices_short_parsed (n : nat) (f : file) (G : Nx.Graph) :
  split EmptyString = [] -> (length f < n)%nat ->
  (forall line, In line f -> exists k, declares_node split int_of line k) ->
  read_vertices split int_of n f G = Fails IndexError.
Proof.
  intros Hs. revert f G. induction n as [|n IH]; intros f G Hlen Hp; [lia|].
  destruct f as [|line f]; simpl.
  - now rewrite Hs.
  - destruct (Hp line (or_introl eq_refl)) as (k & p & rest & Es & Ek).
    rewrite Es. change (Py.getitem (p :: rest) 0) with (Some p). cbv iota beta. rewrite Ek.
    apply IH; [simpl in Hlen; lia|]. intros l Hl. apply Hp. now right.
Qed.

Lemma read_vertices_no_hang (n : nat) (f : file) (G : Nx.Graph) :
  read_vertices split int_of n f G <> Hangs.
Proof.
  revert f G. induction n as [|n IH]; intros f G; simpl; [discriminate|].
  destruct (readline f) as [line f'].
  destruct (Py.getitem (split line) 0) as [p|]; [|discriminate].
  destruct (int_of p) as [nd|]; [apply IH|discriminate].
Qed.

Lemma read_edges_no_hang (f : file) (G : Nx.Graph) :
  read_edges split strip int_of f G <> Hangs.
Proof.
  revert G. induction f as [|line f IH]; intros G; simpl; [discriminate|].
  destruct (String.prefix "*edges" line); [apply IH|].
  destruct (2 <=? Z.of_nat (length (split (strip line)))); [|apply IH].
  destruct (Py.getitem _ 0) as [p0|]; [|discriminate].
  destruct (Py.getitem _ 1) as [p1|]; [|discriminate].
  destruct (int_of p0); [|discriminate].
  destruct (int_of p1); [apply IH|discriminate].
Qed.

Lemma find_vertices_skip (pre rest : file) (G : Nx.Graph) :
  (forall line, In line pre -> String.prefix "*vertices" line = false) ->
  find_vertices split int_of (pre ++ rest) G = find_vertices split int_of rest G.
Proof.
  induction pre as [|line pre IH]; intros H; simpl; [reflexivity|].
  rewrite (H line) by now left. apply IH. intros l Hl. apply H. now right.
Qed.

Lemma find_vertices_hangs (f : file) (G : Nx.Graph) :
  find_vertices split int_of f G = Hangs <->
  forall line, In line f -> String.prefix "*vertices" line = false.
Proof.
  induction f as [|line f IH]; simpl.
  - split; [intros _ ? []|reflexivity].
  - destruct (String.prefix "*vertices" line) eqn:E.
    + split.
      * intros H. exfalso.
        destruct (Py.getitem (split line) 1) as [t|]; [|discriminate].
        destruct (int_of t) as [n|]; [|discriminate].
        now apply read_vertices_no_hang in H.
      * intros H. specialize (H line (or_introl eq_refl)). congruence.
    + rewrite IH. split.
      * intros H l [<- | Hl]; auto.
      * intros H l Hl. apply H. now right.
Qed.

Lemma read_edges_spec (elines : file) (G G' : Nx.Graph) :
  read_edges split strip int_of elines G = Returns G' ->
  (graph_wf G -> graph_wf G') /\
  (forall k, In k (Nx.nodes G') <->
             In k (Nx.nodes G) \/
             exists line u v, In line elines /\ declares_edge split strip int_of line u v /\ (k = u \/ k = v)) /\
  (forall a b, Nx.has_edge G' a b = true <->
               Nx.has_edge G a b = true \/
               exists line, In line elines /\
                            (declares_edge split strip int_of line a b \/ declares_edge split strip int_of line b a)).
Proof.
  revert G. induction elines as [|line elines IH]; intros G; simpl.
  - intros E. inversion E; subst. split; [auto|]. split.
    + intros k. split; [auto|]. intros [H | (l & ? & ? & [] & _)]. exact H.
    + intros a b. split; [auto|]. intros [H | (l & [] & _)]. exact H.
  - destruct (String.prefix "*edges" line) eqn:Ep.
    { intros E. apply IH in E. destruct E as (Hwf & Hn & He).
      split; [exact Hwf|]. split.
      - intros k. rewrite Hn. split.
        + intros [H | (l & u & v & Hl & Hd)]; auto. right. exists l, u, v. tauto.
        + intros [H | (l & u & v & [<- | Hl] & Hd & Hk)]; auto.
          * destruct Hd as [Hd _]. congruence.
          * right. now exists l, u, v.
      - intros a b. rewrite He. split.
        + intros [H | (l & Hl & Hd)]; auto. right. exists l. tauto.
        + intros [H | (l & [<- | Hl] & Hd)]; auto.
          * destruct Hd as [[Hd _] | [Hd _]]; congruence.
          * right. now exists l. }
    destruct (Z.leb_spec 2 (Z.of_nat (length (split (strip line))))) as [Hlen | Hlen].
    + destruct (Py.getitem (split (strip line)) 0) as [p0|] eqn:E0; [|discriminate].
      destruct (Py.getitem (split (strip line)) 1) as [p1|] eqn:E1; [|discriminate].
      destruct (int_of p0) as [u|] eqn:Eu; [|discriminate].
      destruct (int_of p1) as [v|] eqn:Ev; [|discriminate].
      apply getitem_1 in E1. destruct E1 as (y & r & Es).
      rewrite Es in E0. inversion E0; subst y. clear E0.
      assert (Hline : forall a b, declares_edge split strip int_of line a b <-> a = u /\ b = v).
      { intros a b. split.
        - intros (_ & q0 & q1 & r' & Eq & Ea & Eb). rewrite Es in Eq.
          inversion Eq; subst. split; congruence.
        - intros [-> ->]. split; [exact Ep|]. now exists p0, p1, r. }
      intros E. apply IH in E. destruct E as (Hwf & Hn & He).
      split; [intros H; now apply Hwf, add_edge_wf|]. split.
      * intros k. rewrite Hn, add_edge_nodes_In. split.
        -- intros [[H | Hk] | (l & a & b & Hl & Hd)]; auto.
           ++ right. exists line, u, v. split; [now left|]. split; [now apply Hline|exact Hk].
           ++ right. exists l, a, b. tauto.
        -- intros [H | (l & a & b & [<- | Hl] & Hd & Hk)]; auto.
           ++ apply Hline in Hd. destruct Hd as [-> ->]. auto.
           ++ right. now exists l, a, b.
      * intros a b. rewrite He, add_edge_has_edge. split.
        -- intros [[H | H] | (l & Hl & Hd)]; auto.
           ++ right. exists line. split; [now left|]. rewrite !Hline. tauto.
           ++ right. exists l. tauto.
        -- intros [H | (l & [<- | Hl] & Hd)]; auto.
           ++ rewrite !Hline in Hd. tauto.
           ++ right. now exists l.
    + assert (Hline : forall a b, ~ declares_edge split strip int_of line a b).
      { intros a b (_ & q0 & q1 & r' & Eq & _). rewrite Eq in Hlen. simpl in Hlen. lia. }
      intros E. apply IH in E. destruct E as (Hwf & Hn & He).
      split; [exact Hwf|]. split.
      * intros k. rewrite Hn. split.
        -- intros [H | (l & u & v & Hl & Hd)]; auto. right. exists l, u, v. tauto.
        -- intros [H | (l & u & v & [<- | Hl] & Hd & Hk)]; auto.
           ++ now apply Hline in Hd.
           ++ right. now exists l, u, v.
      * intros a b. rewrite He. split.
        -- intros [H | (l & Hl & Hd)]; auto. right. exists l. tauto.
        -- intros [H | (l & [<- | Hl] & Hd)]; auto.
           ++ destruct Hd as [Hd | Hd]; now apply Hline in Hd.
           ++ right. now exists l.
Qed.

(** ** Properties of [load_network] *)

(** X7: the call never ends exactly when the file exists and none of its
    lines starts with ['*vertices'] (an empty file, or a Pajek file with
    the usual ['*Vertices']): the loop that looks for the header has no
    exit at the end of the file. *)
Theorem load_network_hangs (fs : string -> option file) (net_name : string) :
  load_network split strip int_of fs net_name = Hangs <->
  exists f, fs ("data/" ++ net_name ++ ".net")%string = Some f /\
            forall line, In line f -> String.prefix "*vertices" line = false.
Proof.
  unfold load_network.
  destruct (fs ("data/" ++ net_name ++ ".net")%string) as [f|].
  - pose proof (find_vertices_hangs f (Nx.mkGraph [] [])) as Hh.
    destruct (find_vertices split int_of f (Nx.mkGraph [] [])) as [[G' f']|e| |] eqn:E.
    + split; [intros H; now apply read_edges_no_hang in H|].
      intros (f0 & E0 & H). inversion E0; subst. apply Hh in H. discriminate.
    + split; [discriminate|].
      intros (f0 & E0 & H). inversion E0; subst. apply Hh in H. discriminate.
    + split; [discriminate|].
      intros (f0 & E0 & H). inversion E0; subst. apply Hh in H. discriminate.
    + split; [|reflexivity]. intros _. exists f. split; [reflexivity|now apply Hh].
  - split; [discriminate|]. intros (f0 & E0 & _). discriminate.
Qed.

(** X8: whatever the file holds, a graph that the call returns is well
    formed: no node twice, every edge between nodes of the graph, no edge
    twice in either orientation. *)
Theorem load_network_wf (fs : string -> option file) (net_name : string)
    (G : Nx.Graph) :
  load_network split strip int_of fs net_name = Returns G -> graph_wf G.
Proof.
  unfold load_network.
  destruct (fs ("data/" ++ net_name ++ ".net")%string) as [f|]; [|discriminate].
  destruct (find_vertices split int_of f (Nx.mkGraph [] [])) as [[G' f']|e| |] eqn:E;
    try discriminate.
  intros H. apply read_edges_spec in H. destruct H as (Hwf & _). apply Hwf.
  clear -E.
  assert (H0 := graph_wf_empty). revert E H0. generalize (Nx.mkGraph [] []) as G0.
  induction f as [|line f IH]; intros G0; simpl; [discriminate|].
  destruct (String.prefix "*vertices" line); [|apply IH].
  destruct (Py.getitem (split line) 1) as [t|]; [|discriminate].
  destruct (int_of t) as [n|]; [|discriminate].
  generalize (Z.to_nat n) as k. clear. intros k. revert f G0.
  induction k as [|k IHk]; intros f G0; simpl.
  - intros E. now inversion E.
  - destruct (readline f) as [l f1].
    destruct (Py.getitem (split l) 0) as [p|]; [|discriminate].
    destruct (int_of p) as [nd|]; [|discriminate].
    intros E H. apply (IHk _ _ E). now apply add_node_wf.
Qed.

(** X9: when the header announces more nodes than lines follow it, the
    call does not return a graph: it raises [IndexError] or [ValueError];
    and when every line that does follow the header names a node (its first
    token reads as an int), the exception is [IndexError], raised at the
    first missing line. *)
Theorem load_network_short (fs : string -> option file) (net_name : string)
    (pre body : file) (header t : string) (n_nodes : Z) :
  fs ("data/" ++ net_name ++ ".net")%string = Some (pre ++ header :: body) ->
  (forall line, In line pre -> String.prefix "*vertices" line = false) ->
  String.prefix "*vertices" header = true ->
  Py.getitem (split header) 1 = Some t -> int_of t = Some n_nodes ->
  Z.of_nat (length body) < n_nodes ->
  split EmptyString = [] ->
  (load_network split strip int_of fs net_name = Fails IndexError \/
   load_network split strip int_of fs net_name = Fails ValueError) /\
  ((forall line, In line body -> exists k, declares_node split int_of line k) ->
   load_network split strip int_of fs net_name = Fails IndexError).
Proof.
  intros Efs Hpre Hh Et En Hlen Hs. unfold load_network. rewrite Efs.
  rewrite find_vertices_skip by exact Hpre. simpl. rewrite Hh, Et, En.
  split.
  - destruct (read_vertices_short (Z.to_nat n_nodes) body (Nx.mkGraph [] []) Hs)
      as [E | E]; [lia|rewrite E; now left|rewrite E; now right].
  - intros Hp. rewrite read_vertices_short_parsed; [reflexivity|exact Hs|lia|exact Hp].
Qed.

(** X10: what a returned graph holds.  With the header announcing
    [n_nodes] nodes, the [n_nodes] lines after it are node lines and the
    rest edge lines; the nodes of the graph are exactly the nodes that the
    node lines name and the endpoints of the edge lines, and two nodes are
    joined exactly when an edge line names them, in either order.  Lines
    before the header, tokens after the first of a node line and after the
    second of an edge line, and lines with fewer than two tokens count for
    nothing. *)
Theorem load_network_content (fs : string -> option file) (net_name : string)
    (pre vlines elines : file) (header t : string) (n_nodes : Z) (G : Nx.Graph) :
  fs ("data/" ++ net_name ++ ".net")%string = Some (pre ++ header :: vlines ++ elines) ->
  (forall line, In line pre -> String.prefix "*vertices" line = false) ->
  String.prefix "*vertices" header = true ->
  Py.getitem (split header) 1 = Some t -> int_of t = Some n_nodes ->
  length vlines = Z.to_nat n_nodes ->
  load_network split strip int_of fs net_name = Returns G ->
  (forall k, In k (Nx.nodes G) <->
             (exists line, In line vlines /\ declares_node split int_of line k) \/
             (exists line u v, In line elines /\ declares_edge split strip int_of line u v /\
                               (k = u \/ k = v))) /\
  (forall a b, Nx.has_edge G a b = true <->
               exists line, In line elines /\
                            (declares_edge split strip int_of line a b \/ declares_edge split strip int_of line b a)).
Proof.
  intros Efs Hpre Hh Et En Hlen. unfold load_network. rewrite Efs.
  rewrite find_vertices_skip by exact Hpre. simpl. rewrite Hh, Et, En, <- Hlen.
  destruct (read_vertices split int_of (length vlines) (vlines ++ elines)
              (Nx.mkGraph [] [])) as [[G1 f1]|e| |] eqn:E; try discriminate.
  apply read_vertices_spec in E. destruct E as (-> & Ee & _ & Hn).
  intros H. apply read_edges_spec in H. destruct H as (_ & Hn' & He').
  split.
  - intros k. rewrite Hn', Hn. simpl. tauto.
  - intros a b. rewrite He'.
    assert (E1 : Nx.has_edge G1 a b = false)
      by (unfold Nx.has_edge; rewrite Ee; reflexivity).
    rewrite E1. split; [intros [H | H]; [discriminate|exact H]|auto].
Qed.

End LoadNetworkFacts.

Lemma load_network_wf_witness :
  load_network_ascii example_fs "net1" = Returns (Nx.mkGraph [1; 2; 3] [(1, 2); (2, 3)]) /\
  graph_wf (Nx.mkGraph [1; 2; 3] [(1, 2); (2, 3)]).
Proof.
  assert (H : load_network ascii_split ascii_strip ascii_int example_fs "net1"
              = Returns (Nx.mkGraph [1; 2; 3] [(1, 2); (2, 3)])) by (vm_compute; reflexivity).
  split; [exact H|].
  exact (load_network_wf ascii_split ascii_strip ascii_int example_fs "net1" _ H).
Defined.

Lemma load_network_short_witness :
  (example_fs ("data/" ++ "short" ++ ".net")%string
   = Some ([] ++ ("*vertices 3" ++ nl)%string :: [("1" ++ nl)%string]) /\
   (forall line, In line [] -> String.prefix "*vertices" line = false) /\
   String.prefix "*vertices" ("*vertices 3" ++ nl) = true /\
   Py.getitem (ascii_split ("*vertices 3" ++ nl)) 1 = Some "3"%string /\
   ascii_int "3" = Some 3 /\
   Z.of_nat (length [("1" ++ nl)%string]) < 3 /\
   ascii_split EmptyString = [] /\
   declares_node ascii_split ascii_int ("1" ++ nl) 1) /\
  (load_network ascii_split ascii_strip ascii_int example_fs "short" = Fails IndexError \/
   load_network ascii_split ascii_strip ascii_int example_fs "short" = Fails ValueError) /\
  load_network ascii_split ascii_strip ascii_int example_fs "short" = Fails IndexError.
Proof.
  assert (H1 : example_fs ("data/" ++ "short" ++ ".net")%string
               = Some ([] ++ ("*vertices 3" ++ nl)%string :: [("1" ++ nl)%string]))
    by reflexivity.
  assert (H2 : forall line : string, In line [] -> String.prefix "*vertices" line = false)
    by (intros line []).
  assert (H3 : String.prefix "*vertices" ("*vertices 3" ++ nl) = true) by reflexivity.
  assert (H4 : Py.getitem (ascii_split ("*vertices 3" ++ nl)) 1 = Some "3"%string)
    by reflexivity.
  assert (H5 : ascii_int "3" = Some 3) by reflexivity.
  assert (H6 : Z.of_nat (length [("1" ++ nl)%string]) < 3) by (simpl; lia).
  assert (H7 : ascii_split EmptyString = []) by reflexivity.
  assert (H8 : declares_node ascii_split ascii_int ("1" ++ nl) 1)
    by (exists "1"%string, []; split; reflexivity).
  split; [exact (conj H1 (conj H2 (conj H3 (conj H4 (conj H5 (conj H6 (conj H7 H8)))))))|].
  destruct (load_network_short ascii_split ascii_strip ascii_int example_fs "short"
              [] _ _ _ 3 H1 H2 H3 H4 H5 H6 H7) as [Hd Hc].
  split; [exact Hd|]. apply Hc. intros line [<- | []]. now exists 1.
Defined.

Lemma load_network_content_witness :
  (example_fs ("data/" ++ "net1" ++ ".net")%string
   = Some ([] ++ ("*vertices 3" ++ nl)%string
              :: [("1 " ++ nl)%string; ("2" ++ nl)%string; ("3" ++ nl)%string]
              ++ [("*edges" ++ nl)%string; ("1 2" ++ nl)%string; ("2 3 0.5" ++ nl)%string;
                  ("2 1" ++ nl)%string]) /\
   (forall line, In line [] -> String.prefix "*vertices" line = false) /\
   String.prefix "*vertices" ("*vertices 3" ++ nl) = true /\
   Py.getitem (ascii_split ("*vertices 3" ++ nl)) 1 = Some "3"%string /\
   ascii_int "3" = Some 3 /\
   length [("1 " ++ nl)%string; ("2" ++ nl)%string; ("3" ++ nl)%string] = Z.to_nat 3 /\
   load_network ascii_split ascii_strip ascii_int example_fs "net1"
   = Returns (Nx.mkGraph [1; 2; 3] [(1, 2); (2, 3)])) /\
  (forall k, In k (Nx.nodes (Nx.mkGraph [1; 2; 3] [(1, 2); (2, 3)])) <->
             (exists line,
                 In line [("1 " ++ nl)%string; ("2" ++ nl)%string; ("3" ++ nl)%string] /\
                 declares_node ascii_split ascii_int line k) \/
             (exists line u v,
                 In line [("*edges" ++ nl)%string; ("1 2" ++ nl)%string;
                          ("2 3 0.5" ++ nl)%string; ("2 1" ++ nl)%string] /\
                 declares_edge ascii_split ascii_strip ascii_int line u v /\
                 (k = u \/ k = v))) /\
  (forall a b, Nx.has_edge (Nx.mkGraph [1; 2; 3] [(1, 2); (2, 3)]) a b = true <->
               exists line,
                 In line [("*edges" ++ nl)%string; ("1 2" ++ nl)%string;
                          ("2 3 0.5" ++ nl)%string; ("2 1" ++ nl)%string] /\
                 (declares_edge ascii_split ascii_strip ascii_int line a b \/
                  declares_edge ascii_split ascii_strip ascii_int line b a)).
Proof.
  assert (H1 : example_fs ("data/" ++ "net1" ++ ".net")%string
   = Some ([] ++ ("*vertices 3" ++ nl)%string
              :: [("1 " ++ nl)%string; ("2" ++ nl)%string; ("3" ++ nl)%string]
              ++ [("*edges" ++ nl)%string; ("1 2" ++ nl)%string; ("2 3 0.5" ++ nl)%string;
                  ("2 1" ++ nl)%string])) by reflexivity.
  assert (H2 : forall line : string, In line [] -> String.prefix "*vertices" line = false)
    by (intros line []).
  assert (H3 : String.prefix "*vertices" ("*vertices 3" ++ nl) = true) by reflexivity.
  assert (H4 : Py.getitem (ascii_split ("*vertices 3" ++ nl)) 1 = Some "3"%string)
    by reflexivity.
  assert (H5 : ascii_int "3" = Some 3) by reflexivity.
  assert (H6 : length [("1 " ++ nl)%string; ("2" ++ nl)%string; ("3" ++ nl)%string]
               = Z.to_nat 3) by reflexivity.
  assert (H7 : load_network ascii_split ascii_strip ascii_int example_fs "net1"
               = Returns (Nx.mkGraph [1; 2; 3] [(1, 2); (2, 3)]))
    by (vm_compute; reflexivity).
  split; [repeat split; assumption|].
  exact (load_network_content ascii_split ascii_strip ascii_int example_fs "net1"
           [] _ _ _ _ 3 _ H1 H2 H3 H4 H5 H6 H7).
Defined.

(** * Testing the model *)

Section TestFacts.
Context {square : Square}.

Lemma tuple_eqb_eq (e e' : node * node) : tuple_eqb e e' = true <-> e = e'.
Proof.
  unfold tuple_eqb. destruct e, e'; simpl.
  rewrite andb_true_iff, !Z.eqb_eq. split; [intros [-> ->]|intros E; inversion E]; auto.
Qed.

Lemma existsb_tuple (e : node * node) (l : list (node * node)) :
  existsb (tuple_eqb e) l = true <-> In e l.
Proof.
  rewrite existsb_exists. split.
  - intros (x & Hx & E). apply tuple_eqb_eq in E. now subst.
  - intros H. exists e. split; [exact H|now apply tuple_eqb_eq].
Qed.

Lemma set_eqb_iff (l1 l2 : list (node * node)) :
  set_eqb l1 l2 = true <-> forall e, In e l1 <-> In e l2.
Proof.
  unfold set_eqb. rewrite andb_true_iff, !forallb_forall. split.
  - intros [H1 H2] e. split; intros H; [apply H1 in H|apply H2 in H];
      now apply existsb_tuple in H.
  - intros H. split; intros e He; apply existsb_tuple, H, He.
Qed.

(** ** As many edges as pairs, at most *)

Lemma orient_cases (l : list (node * node)) (e : node * node) :
  orient l e = e \/ orient l e = (snd e, fst e).
Proof. unfold orient. destruct (existsb _ _); auto. Qed.

Lemma orient_In (l : list (node * node)) (u v : node) :
  In (u, v) l \/ In (v, u) l -> In (orient l (u, v)) l.
Proof.
  intros H. unfold orient. destruct (existsb (tuple_eqb (u, v)) l) eqn:E.
  - now apply existsb_tuple.
  - simpl. destruct H as [H | H]; [|exact H].
    apply existsb_tuple in H. congruence.
Qed.

Lemma orient_NoDup (l E : list (node * node)) :
  simple E -> NoDup (map (orient l) E).
Proof.
  intros [Hnd Hor]. induction Hnd as [|e E He Hnd IH]; simpl; constructor.
  - rewrite in_map_iff. intros (e' & Eq & He').
    destruct e as [u v], e' as [u' v'].
    destruct (orient_cases l (u, v)) as [E1 | E1], (orient_cases l (u', v')) as [E2 | E2];
      rewrite E1, E2 in Eq; simpl in Eq; injection Eq as Hu Hv; subst u' v'.
    + contradiction.
    + apply (Hor u v); simpl; auto.
    + apply (Hor u v); simpl; auto.
    + contradiction.
  - apply IH. intros u v H. specialize (Hor u v (or_intror H)).
    intros H'. apply Hor. now right.
Qed.

Lemma simple_length_le (E F : list (node * node)) :
  simple E -> (forall u v, In (u, v) E -> In (u, v) F \/ In (v, u) F) ->
  (length E <= length F)%nat.
Proof.
  intros Hs Hin. rewrite <- (length_map (orient F) E).
  apply NoDup_incl_length; [now apply orient_NoDup|].
  intros e He. apply in_map_iff in He. destruct He as ([u v] & <- & He).
  now apply orient_In, Hin.
Qed.

(** Of two simple lists of the same length, if one lies in the other up to
    orientation, so does the other in the one. *)
Lemma simple_same_length (E F : list (node * node)) :
  simple E -> NoDup F -> length E = length F ->
  (forall u v, In (u, v) E -> In (u, v) F \/ In (v, u) F) ->
  forall u v, In (u, v) F -> In (u, v) E \/ In (v, u) E.
Proof.
  intros Hs HF Hlen Hin u v Huv.
  assert (Hincl : incl F (map (orient F) E)).
  { apply NoDup_length_incl; [now apply orient_NoDup|rewrite length_map; lia|].
    intros e He. apply in_map_iff in He. destruct He as ([a b] & <- & He).
    now apply orient_In, Hin. }
  apply Hincl in Huv. apply in_map_iff in Huv. destruct Huv as ([a b] & Eq & He).
  destruct (orient_cases F (a, b)) as [E1 | E1]; rewrite E1 in Eq; simpl in Eq;
    inversion Eq; subst; auto.
Qed.

Lemma placed_simple (G : Nx.Graph) (d : pos_dict) :
  graph_wf G -> placed G d -> simple (Nx.edges G).
Proof.
  intros (_ & _ & Hnd & Hor) Hp. split; [exact Hnd|].
  intros u v H. apply Hor; [exact H|]. now apply (Hp u v).
Qed.

Lemma placed_count (G : Nx.Graph) (d : pos_dict) :
  graph_wf G -> placed G d -> Nx.number_of_edges G <= total_pairs d.
Proof.
  intros Hwf Hp. rewrite <- ordered_pairs_length. unfold Nx.number_of_edges.
  apply inj_le. apply simple_length_le; [now apply (placed_simple G d)|].
  intros u v H. destruct (Hp u v H) as (Huv & Hu & Hv).
  destruct (combinations2_complete _ u v Hu Hv Huv) as [Hc | Hc]; [left | right];
    apply (Permutation_in _ (Permutation_sym (ordered_pairs_perm d))); exact Hc.
Qed.

(** ** [G.edges()] *)

Lemma has_edge_sym (G : Nx.Graph) (a b : node) : Nx.has_edge G a b = Nx.has_edge G b a.
Proof. apply eq_true_iff_eq. rewrite !has_edge_In. tauto. Qed.

Lemma neighbors_In (G : Nx.Graph) (a b : node) :
  In b (neighbors G a) <-> Nx.has_edge G a b = true.
Proof.
  unfold neighbors. rewrite in_flat_map, has_edge_In. split.
  - intros ([x y] & He & Hb). simpl in Hb.
    destruct (Z.eqb_spec x a) as [-> | _].
    + destruct Hb as [<- | []]. now left.
    + destruct (Z.eqb_spec y a) as [-> | _]; [|contradiction].
      destruct Hb as [<- | []]. now right.
  - intros [H | H].
    + exists (a, b). split; [exact H|]. simpl. rewrite Z.eqb_refl. now left.
    + exists (b, a). split; [exact H|]. simpl.
      destruct (Z.eqb_spec b a) as [-> | _]; [now left|].
      rewrite Z.eqb_refl. now left.
Qed.

Lemma existsb_node (n : node) (l : list node) :
  existsb (Z.eqb n) l = true <-> In n l.
Proof.
  rewrite existsb_exists. split.
  - intros (x & Hx & E). apply Z.eqb_eq in E. now subst.
  - intros H. exists n. split; [exact H|apply Z.eqb_refl].
Qed.

(** A tuple [(a, b)] is listed when the edge is there and [b] does not come
    before [a] among the nodes. *)
Lemma edges_from_In (G : Nx.Graph) (seen ns : list node) (a b : node) :
  In (a, b) (edges_from G seen ns) <->
  exists l1 l2, ns = l1 ++ a :: l2 /\ ~ In b seen /\ ~ In b l1 /\
                Nx.has_edge G a b = true.
Proof.
  revert seen. induction ns as [|n ns IH]; intros seen; simpl.
  - split; [tauto|]. intros ([|? ?] & ? & E & _); discriminate.
  - rewrite in_app_iff, in_map_iff, IH. split.
    + intros [(x & E & Hx) | (l1 & l2 & -> & Hs & Hl & He)].
      * inversion E; subst. apply filter_In in Hx. destruct Hx as [Hn Hs].
        exists [], ns. repeat split; auto.
        -- intros H. apply existsb_node in H. rewrite H in Hs. discriminate.
        -- now apply neighbors_In.
      * exists (n :: l1), l2. simpl in *. repeat split; tauto.
    + intros ([|m l1] & l2 & E & Hs & Hl & He); inversion E; subst.
      * left. exists b. split; [reflexivity|]. apply filter_In.
        split; [now apply neighbors_In|].
        destruct (existsb (Z.eqb b) seen) eqn:Eb; [|reflexivity].
        apply existsb_node in Eb. contradiction.
      * right. exists l1, l2. simpl in *. repeat split; tauto.
Qed.

Lemma edge_view_In (G : Nx.Graph) (a b : node) :
  In (a, b) (edge_view G) <->
  exists l1 l2, Nx.nodes G = l1 ++ a :: l2 /\ ~ In b l1 /\ Nx.has_edge G a b = true.
Proof.
  unfold edge_view. rewrite edges_from_In. split.
  - intros (l1 & l2 & E & _ & H). eauto.
  - intros (l1 & l2 & E & H). exists l1, l2. simpl. tauto.
Qed.

(** The sets of the tuples of two graphs with the same nodes are equal
    exactly when the same nodes are joined in both. *)
Lemma edge_view_same (G G' : Nx.Graph) :
  graph_wf G -> graph_wf G' -> Nx.nodes G = Nx.nodes G' ->
  set_eqb (edge_view G) (edge_view G') = true <->
  forall a b, Nx.has_edge G a b = Nx.has_edge G' a b.
Proof.
  intros Hwf Hwf' Hn. rewrite set_eqb_iff. split.
  - intros H.
    assert (Hdir : forall X Y : Nx.Graph, graph_wf X -> Nx.nodes X = Nx.nodes Y ->
              (forall e, In e (edge_view X) -> In e (edge_view Y)) ->
              forall a b, Nx.has_edge X a b = true -> Nx.has_edge Y a b = true).
    { intros X Y (Hnd & Hends & _) HXY Hsub a b Hab.
      assert (Hin : In a (Nx.nodes X) /\ In b (Nx.nodes X)).
      { apply has_edge_In in Hab. destruct Hab as [Hab | Hab];
          apply Hends in Hab; tauto. }
      destruct Hin as [Ha Hb]. apply in_split in Ha. destruct Ha as (l1 & l2 & E).
      destruct (in_dec Z.eq_dec b l1) as [Hb1 | Hb1].
      - apply in_split in Hb1. destruct Hb1 as (m1 & m2 & E1).
        assert (Ha1 : ~ In a m1).
        { intros Ha1. rewrite E, E1, <- app_assoc in Hnd.
          apply (NoDup_app_disjoint _ _ a Hnd Ha1). right.
          apply in_or_app. right. now left. }
        assert (Hv : In (b, a) (edge_view X)).
        { apply edge_view_In. exists m1, (m2 ++ a :: l2). repeat split; auto.
          - rewrite E, E1, <- app_assoc. reflexivity.
          - now rewrite has_edge_sym. }
        apply Hsub, edge_view_In in Hv. destruct Hv as (_ & _ & _ & _ & Hv).
        now rewrite has_edge_sym.
      - assert (Hv : In (a, b) (edge_view X)).
        { apply edge_view_In. exists l1, l2. repeat split; auto. }
        apply Hsub, edge_view_In in Hv. now destruct Hv as (_ & _ & _ & _ & Hv). }
    intros a b. apply eq_true_iff_eq. split.
    + apply (Hdir G G'); auto. intros e. apply H.
    + apply (Hdir G' G); auto. intros e. apply H.
  - intros H [a b]. rewrite !edge_view_In, Hn. split;
      intros (l1 & l2 & E & Hb & He); exists l1, l2; repeat split; auto; congruence.
Qed.

Lemma add_edges_wf (G : Nx.Graph) (l : list (node * node)) :
  graph_wf G -> graph_wf (add_edges G l).
Proof.
  revert G. induction l as [|p l IH]; intros G H; [exact H|].
  rewrite add_edges_cons. now apply IH, add_edge_wf.
Qed.

(** ** Properties of the test *)

Lemma test_model_eq (G : Nx.Graph) (d : pos_dict) :
  well_formed d -> graph_wf G -> placed G d ->
  let G' := final_graph (Nx.clear_edges (G_copy G)) d (Nx.number_of_edges G) in
  test_model G d = Ok (G', set_eqb (edge_view G) (edge_view G')) /\
  Nx.edges G' = firstn (length (Nx.edges G)) (ordered_pairs d) /\
  length (Nx.edges G') = length (Nx.edges G) /\
  graph_wf G'.
Proof.
  intros Hd Hwf Hp. simpl.
  pose proof (placed_count G d Hwf Hp) as Hn.
  assert (HE : Nx.edges (final_graph (Nx.clear_edges (G_copy G)) d (Nx.number_of_edges G))
               = firstn (length (Nx.edges G)) (ordered_pairs d)).
  { rewrite final_edges; [|exact Hd|reflexivity].
    unfold Nx.number_of_edges. now rewrite Nat2Z.id. }
  split; [|split; [exact HE|split]].
  - unfold test_model. now rewrite call_valid by exact Hn.
  - rewrite HE, length_firstn.
    pose proof (ordered_pairs_length d). unfold Nx.number_of_edges in Hn. lia.
  - rewrite final_graph_eq. apply add_edges_wf.
    destruct Hwf as (Hnd & _).
    split; [exact Hnd|]. split; [simpl; tauto|]. split; [constructor|simpl; tauto].
Qed.

(** X11: when the network is a well-formed graph without self-loops in
    which every endpoint of an edge has a position, the test raises nothing:
    its number of edges never exceeds the number of pairs, and the graph
    that the model builds has as many edges as the network and keeps its
    nodes. *)
Theorem test_model_returns (G : Nx.Graph) (d : pos_dict) :
  well_formed d -> graph_wf G -> placed G d ->
  exists G_testing printed,
    test_model G d = Ok (G_testing, printed) /\
    Nx.number_of_edges G_testing = Nx.number_of_edges G /\
    Nx.number_of_edges G <= total_pairs d /\
    (forall k, In k (Nx.nodes G) -> In k (Nx.nodes G_testing)).
Proof.
  intros Hd Hwf Hp.
  destruct (test_model_eq G d Hd Hwf Hp) as (E & _ & Hlen & _).
  exists (final_graph (Nx.clear_edges (G_copy G)) d (Nx.number_of_edges G)).
  eexists. split; [exact E|]. split; [|split].
  - unfold Nx.number_of_edges at 1 3. now rewrite Hlen.
  - now apply placed_count.
  - intros k Hk. rewrite final_graph_eq.
    destruct (add_edges_nodes (Nx.clear_edges (G_copy G))
                (firstn (Z.to_nat (Nx.number_of_edges G)) (ordered_pairs d)))
      as (new & -> & _).
    apply in_or_app. now left.
Qed.

(** X12: when moreover every key of the mapping is a node of the network
    and the coordinates are real numbers (neither NaN nor an infinity, so
    that [<] orders the distances), the value printed by [print(set(G.edges()) == set(G_testing.edges()))]
    is [True] exactly when the same nodes are joined in both graphs,
    whichever way round the edges were inserted, and that is exactly when
    every edge of the network is one of the first [n_edge] pairs in the
    order of distance. *)
Theorem test_model_printed (G : Nx.Graph) (d : pos_dict) (G_testing : Nx.Graph)
    (printed : bool) :
  well_formed d -> graph_wf G -> placed G d -> incl (keys d) (Nx.nodes G) ->
  real_coordinates d = true ->
  test_model G d = Ok (G_testing, printed) ->
  Nx.nodes G_testing = Nx.nodes G /\
  (printed = true <-> forall u v, Nx.has_edge G u v = Nx.has_edge G_testing u v) /\
  (printed = true <->
   forall u v, In (u, v) (Nx.edges G) ->
               In (u, v) (firstn (length (Nx.edges G)) (ordered_pairs d)) \/
               In (v, u) (firstn (length (Nx.edges G)) (ordered_pairs d))).
Proof.
  intros Hd Hwf Hp Hk _ Ht.
  destruct (test_model_eq G d Hd Hwf Hp) as (E & HE & Hlen & Hwf').
  rewrite E in Ht. inversion Ht; subst G_testing printed. clear Ht.
  set (G' := final_graph (Nx.clear_edges (G_copy G)) d (Nx.number_of_edges G)) in *.
  set (F := firstn (length (Nx.edges G)) (ordered_pairs d)) in *.
  assert (Hn : Nx.nodes G' = Nx.nodes G).
  { unfold G'. rewrite final_graph_eq.
    change (Nx.nodes G) with (Nx.nodes (Nx.clear_edges (G_copy G))).
    apply add_edges_nodes_known.
    intros u v H. apply in_firstn in H.
    apply (Permutation_in _ (ordered_pairs_perm d)) in H.
    apply in_combinations2 in H. simpl. split; apply Hk; tauto. }
  assert (Hview := edge_view_same G G' Hwf Hwf' (eq_sym Hn)).
  split; [exact Hn|]. split; [exact Hview|].
  rewrite Hview. split.
  - intros H u v Huv.
    assert (He : Nx.has_edge G' u v = true)
      by (rewrite <- H; apply has_edge_In; now left).
    apply has_edge_In in He. now rewrite HE in He.
  - intros H u v. apply eq_true_iff_eq. rewrite !has_edge_In, HE.
    assert (Hback := simple_same_length (Nx.edges G) F (placed_simple G d Hwf Hp)
                       (proj1 (simple_firstn _ _ (ordered_pairs_simple d Hd)))
                       (eq_trans (eq_sym Hlen) (f_equal (@length _) HE)) H).
    split.
    + intros [Huv | Huv]; apply H in Huv; tauto.
    + intros [Huv | Huv]; apply Hback in Huv; tauto.
Qed.

End TestFacts.

(** * More on the reconstructor *)

Section MoreFacts.
Context {square : Square}.

Lemma SFleb_not_ltb x y : SFleb x y = true -> SFltb y x = false.
Proof. unfold SFltb, SFleb, SFcompare. sf_cases; cmp_cases. Qed.

Lemma float_leb_not_ltb (a b : float) :
  PrimFloat.leb a b = true -> PrimFloat.ltb b a = false.
Proof. rewrite leb_spec, ltb_spec. apply SFleb_not_ltb. Qed.

Lemma key0_entry_of (d : pos_dict) (p : node * node) (x : float) :
  pair_distance d (fst p) (snd p) = Some x -> key0 (entry_of d p) = x.
Proof. intros E. unfold entry_of. now rewrite E. Qed.

Lemma ordered_pairs_precedes (d : pos_dict) (p q : node * node) (x y : float) :
  precedes p q (candidate_pairs d) ->
  pair_distance d (fst p) (snd p) = Some x ->
  pair_distance d (fst q) (snd q) = Some y ->
  PrimFloat.ltb y x = false ->
  precedes p q (ordered_pairs d).
Proof.
  intros H Ex Ey Hlt. unfold ordered_pairs, sorted_list, distance_list.
  rewrite <- (entry_of_pair d p), <- (entry_of_pair d q).
  apply precedes_map, sort_stable; [now apply precedes_map|].
  now rewrite (key0_entry_of d p x Ex), (key0_entry_of d q y Ey).
Qed.

(** X13: for real coordinates (neither NaN nor an infinity), pairs at
    the same computed distance are taken in the order in which
    [combinations] lists them: when [p] is listed before [q] and [q] is not
    nearer than [p], the graph never holds [q] without [p], and [p] was
    inserted first. *)
Theorem tie_break (G : Nx.Graph) (d : pos_dict) (n : Z) (p q : node * node)
    (x y : float) :
  well_formed d -> edgeless G -> real_coordinates d = true ->
  precedes p q (candidate_pairs d) ->
  pair_distance d (fst p) (snd p) = Some x ->
  pair_distance d (fst q) (snd q) = Some y ->
  PrimFloat.ltb y x = false ->
  In q (Nx.edges (final_graph G d n)) ->
  precedes p q (Nx.edges (final_graph G d n)).
Proof.
  intros Hd HG _ H Ex Ey Hlt Hq. rewrite final_edges in * by assumption.
  apply precedes_firstn; [apply (ordered_pairs_simple d Hd)| |exact Hq].
  now apply (ordered_pairs_precedes d p q x y).
Qed.

(** ** Calling the reconstructor again *)
(** X14: a second call with the same mapping and target on the graph that
    the first call left changes nothing more: each edge and node is already
    there; the second call returns or raises as the first did. *)
Theorem second_call (G : Nx.Graph) (d : pos_dict) (n : Z) :
  final_graph (final_graph G d n) d n = final_graph G d n /\
  (forall e, raises (final_graph G d n) d n e <-> raises G d n e) /\
  (returns (final_graph G d n) d n (final_graph G d n) <->
   returns G d n (final_graph G d n)).
Proof.
  assert (E : final_graph (final_graph G d n) d n = final_graph G d n).
  { rewrite (final_graph_eq (final_graph G d n)), (final_graph_eq G).
    apply add_edges_noop. intros p Hp. apply add_edges_present. now right. }
  split; [exact E|].
  unfold raises, returns. rewrite !call_eq. simpl.
  rewrite <- !final_graph_eq, E.
  destruct (n <=? Z.of_nat (length (ordered_pairs d))); split; tauto.
Qed.

(** ** What the call can raise *)

(** X15: on coordinates that are [numpy.float64], the only exception a
    call can raise is [IndexError], for a target above the number of pairs:
    the mapping is only asked for keys it has, the square overflows to an
    infinity and raises nothing, and the square root is only asked for a sum
    of squares, which is not negative. *)
Theorem only_index_error (G : Nx.Graph) (d : pos_dict) (n : Z) (e : exn) :
  raises G d n e -> e = IndexError /\ total_pairs d < n.
Proof.
  unfold raises. rewrite call_eq, ordered_pairs_length. simpl.
  destruct (Z.leb_spec n (total_pairs d)); [discriminate|].
  intros E. inversion E. now split.
Qed.

(** ** A threshold on the distance *)

(** X16: the graph that the call returns is closed under nearer pairs:
    when two nodes are joined, every two distinct nodes with a strictly
    smaller distance are joined, too. *)
Theorem nearer_pairs_joined (G : Nx.Graph) (d : pos_dict) (n : Z)
    (a b u v : node) (x y : float) :
  well_formed d -> edgeless G -> real_coordinates d = true ->
  Nx.has_edge (final_graph G d n) a b = true ->
  In u (keys d) -> In v (keys d) -> u <> v ->
  pair_distance d a b = Some x -> pair_distance d u v = Some y ->
  PrimFloat.ltb y x = true ->
  Nx.has_edge (final_graph G d n) u v = true.
Proof.
  intros Hd HG Hr Hab Hu Hv Huv Ex Ey Hlt.
  rewrite has_edge_In in *. rewrite final_edges in * by assumption.
  set (k := Z.to_nat n) in *.
  assert (Hcand : In (u, v) (ordered_pairs d) \/ In (v, u) (ordered_pairs d)).
  { destruct (combinations2_complete _ u v Hu Hv Huv) as [H | H]; [left | right];
      apply (Permutation_in _ (Permutation_sym (ordered_pairs_perm d))); exact H. }
  assert (Hfar : forall p q, In p (firstn k (ordered_pairs d)) ->
                             In q (skipn k (ordered_pairs d)) ->
                             pair_distance d (fst p) (snd p) = Some x ->
                             pair_distance d (fst q) (snd q) = Some y -> False).
  { intros p q Hp Hq Ep Eq.
    pose proof (ordered_pairs_ascending d k p q x y Hr Hp Hq Ep Eq) as Hle.
    apply float_leb_not_ltb in Hle. congruence. }
  assert (Hx : exists p, In p (firstn k (ordered_pairs d)) /\
                         pair_distance d (fst p) (snd p) = Some x).
  { destruct Hab as [H | H]; [exists (a, b)|exists (b, a)]; split; auto.
    simpl. now rewrite pair_distance_sym. }
  destruct Hx as (p & Hp & Ep).
  rewrite <- (firstn_skipn k (ordered_pairs d)) in Hcand.
  rewrite !in_app_iff in Hcand.
  destruct Hcand as [[H | H] | [H | H]]; auto; exfalso.
  - apply (Hfar p (u, v)); auto.
  - apply (Hfar p (v, u)); auto. simpl. now rewrite pair_distance_sym.
Qed.

End MoreFacts.

(** * The runs *)

(** ** The product as the square

    The correctly rounded product [x * x] has the properties of [Square].
    On the inputs of the runs below every square is that of an integer of
    at most 28 bits, so that it is exact, and the product is what any
    implementation of the power function returns for it. *)

Lemma product_sign (x : float) :
  sf_nan (Prim2SF (x * x)) = true \/ sf_signed false (Prim2SF (x * x)) = true.
Proof. rewrite mul_spec. apply SFmul_square_class. Qed.

Lemma product_number (x : float) :
  sf_nan (Prim2SF x) = false -> sf_nan (Prim2SF (x * x)) = false.
Proof.
  intros H. rewrite mul_spec.
  eapply signed_not_nan, SFmul_square_signed, H.
Qed.

Lemma product_even (x : float) : (- x * - x = x * x)%float.
Proof.
  rewrite <- (SF2Prim_Prim2SF (- x * - x)), <- (SF2Prim_Prim2SF (x * x)).
  f_equal. rewrite !mul_spec, opp_spec.
  apply SFmul_square. now right.
Qed.

#[global] Instance product_square : Square :=
  Build_Square (fun x => x * x)%float product_sign product_number product_even.

(** The run of the specification's scenario, node for node. *)
Example scenario_run :
  call G4 pos4 2 =
  (Ok (Nx.mkGraph [1; 2; 3; 4] [(1, 2); (1, 3)]),
   mkHeap (Nx.mkGraph [1; 2; 3; 4] [(1, 2); (1, 3)]) pos4).
Proof. vm_compute. reflexivity. Qed.

Example test_model_run :
  test_model G_square pos4 = Ok (Nx.mkGraph [4; 3; 2; 1] [(1, 2); (1, 3)], true).
Proof. vm_compute. reflexivity. Qed.

(** ** C1 *)

(** C1, as stated, fails: on the four-node scenario, a target of 7 exceeds
    the 6 pairs and the call raises instead of returning a graph of 6 edges,
    and a target of -1 returns a graph of 0 edges, not of min(-1, 6). *)
Lemma edge_count_counterexample :
  (well_formed pos4 /\ edgeless G4 /\ (2 <= length pos4)%nat) /\
  raises G4 pos4 7 IndexError /\
  ~ returns_min_count G4 pos4 7 /\
  ~ returns_min_count G4 pos4 (-1).
Proof.
  split; [split; [distinct_keys|split; [reflexivity|simpl; lia]]|].
  split; [reflexivity|]. split.
  - intros (G' & H & _). vm_compute in H. discriminate.
  - intros (G' & H & E). vm_compute in H. inversion H; subst. discriminate.
Qed.

Lemma edge_count_witness :
  (well_formed pos4 /\ edgeless G4) /\
  Nx.number_of_edges (final_graph G4 pos4 2) = Z.min (Z.max 0 2) (total_pairs pos4) /\
  (2 <= total_pairs pos4 -> returns G4 pos4 2 (final_graph G4 pos4 2)) /\
  (total_pairs pos4 < 2 -> raises G4 pos4 2 IndexError).
Proof.
  assert (Hd : well_formed pos4) by distinct_keys.
  assert (HG : edgeless G4) by reflexivity.
  split; [now split|]. exact (edge_count G4 pos4 2 Hd HG).
Defined.

(** ** C2 *)

(** C2, as stated, fails: a target above the pair count raises only after
    the graph has received edges, and a negative target raises nothing. *)
Lemma invalid_target_counterexample :
  (total_pairs pos4 < 7 /\ ~ fails_fast G4 pos4 7) /\
  (-1 < 0 /\ ~ fails_fast G4 pos4 (-1)).
Proof.
  split; split; try (vm_compute; reflexivity).
  - intros (e & H). vm_compute in H. discriminate.
  - intros (e & H). vm_compute in H. discriminate.
Qed.

Lemma invalid_target_witness :
  (well_formed pos4 /\ edgeless G4) /\
  (total_pairs pos4 < 7 ->
   call G4 pos4 7 = (Raise IndexError, mkHeap (final_graph G4 pos4 7) pos4) /\
   Nx.edges (final_graph G4 pos4 7) = ordered_pairs pos4 /\
   Nx.number_of_edges (final_graph G4 pos4 7) = total_pairs pos4) /\
  (7 < 0 -> call G4 pos4 7 = (Ok G4, mkHeap G4 pos4)).
Proof.
  assert (Hd : well_formed pos4) by distinct_keys.
  assert (HG : edgeless G4) by reflexivity.
  split; [now split|]. exact (invalid_target G4 pos4 7 Hd HG).
Defined.

(** ** C4 *)

(** C4, as stated, fails for the exact distances: on [pos_tie] the pairs
    (1, 2) and (1, 3) get the same binary64 distance, 2^26, although the
    square of the first distance is 2^52 + 1 and that of the second 2^52;
    the tie goes to (1, 2), which [combinations] lists first, so that the
    edge that target 2 adds to those of target 1 is strictly nearer than
    the edge of target 1.  The squares taken here are those of 0, 1, 2^26
    and 2^27, exact in binary64. *)
Lemma monotone_counterexample :
  (well_formed pos_tie /\ edgeless G0 /\ real_coordinates pos_tie = true /\
   0 <= 1 /\ 0 <= 1 /\ 1 + 1 <= total_pairs pos_tie) /\
  returns G0 pos_tie 1 (Nx.mkGraph [1; 2] [(1, 2)]) /\
  returns G0 pos_tie (1 + 1) (Nx.mkGraph [1; 2; 3] [(1, 2); (1, 3)]) /\
  exact_square_distance pos_tie 1 2 = Some (2 ^ 52 + 1) /\
  exact_square_distance pos_tie 1 3 = Some (2 ^ 52) /\
  ~ exactly_monotone pos_tie [(1, 2)] [(1, 2); (1, 3)].
Proof.
  split; [split; [distinct_keys|repeat split; try reflexivity; try lia;
                                vm_compute; discriminate]|].
  split; [reflexivity|]. split; [reflexivity|].
  split; [reflexivity|]. split; [reflexivity|].
  intros H.
  specialize (H (1, 2) (1, 3) (2 ^ 52 + 1) (2 ^ 52)).
  assert (Hle : 2 ^ 52 + 1 <= 2 ^ 52).
  { apply H; try reflexivity; simpl; auto.
    intros [E | []]. discriminate. }
  lia.
Qed.

Lemma monotone_witness :
  (well_formed pos4 /\ edgeless G4 /\ real_coordinates pos4 = true /\
   0 <= 2 /\ 0 <= 3 /\ 2 + 3 <= total_pairs pos4) /\
  exists G1 G2,
    returns G4 pos4 2 G1 /\ returns G4 pos4 (2 + 3) G2 /\
    incl (Nx.edges G1) (Nx.edges G2) /\
    forall e e' x x',
      In e (Nx.edges G1) -> In e' (Nx.edges G2) -> ~ In e' (Nx.edges G1) ->
      pair_distance pos4 (fst e) (snd e) = Some x ->
      pair_distance pos4 (fst e') (snd e') = Some x' ->
      PrimFloat.leb x x' = true.
Proof.
  assert (Hd : well_formed pos4) by distinct_keys.
  assert (HG : edgeless G4) by reflexivity.
  assert (Hr : real_coordinates pos4 = true) by reflexivity.
  assert (Ht : 0 <= 2) by lia.
  assert (Hk : 0 <= 3) by lia.
  assert (Htk : 2 + 3 <= total_pairs pos4) by (vm_compute; discriminate).
  split; [repeat split; assumption|].
  exact (monotone G4 pos4 2 3 Hd HG Hr Ht Hk Htk).
Defined.

(** ** C5 *)



(** ** C6 *)

Lemma simple_edges_witness :
  (well_formed pos4 /\ edgeless G4 /\ 0 <= 5 <= total_pairs pos4) /\
  exists G',
    returns G4 pos4 5 G' /\
    (forall u v, In (u, v) (Nx.edges G') -> u <> v) /\
    NoDup (Nx.edges G') /\
    (forall u v, In (u, v) (Nx.edges G') -> ~ In (v, u) (Nx.edges G')).
Proof.
  assert (Hd : well_formed pos4) by distinct_keys.
  assert (HG : edgeless G4) by reflexivity.
  assert (Hn : 0 <= 5 <= total_pairs pos4)
    by (split; [lia|vm_compute; discriminate]).
  split; [repeat split; try assumption; apply Hn|].
  exact (simple_edges G4 pos4 5 Hd HG Hn).
Defined.

(** ** C7 *)

(** C7, as stated, fails: on a graph that lacks nodes of the mapping, here
    a fresh [nx.Graph()], [add_edge] creates the endpoints it needs, so the
    node set changes, too. *)
Lemma frame_counterexample :
  Nx.nodes G0 = [] /\
  Nx.nodes (final_graph G0 pos4 2) = [1; 2; 3] /\
  ~ only_edges_change G0 pos4 2.
Proof.
  split; [reflexivity|]. split; [reflexivity|].
  intros [_ H]. vm_compute in H. discriminate.
Qed.

Lemma frame_witness :
  closed G0 /\
  hpos (snd (call G0 pos4 2)) = pos4 /\
  (exists new, Nx.edges (final_graph G0 pos4 2) = Nx.edges G0 ++ new) /\
  (exists new, Nx.nodes (final_graph G0 pos4 2) = Nx.nodes G0 ++ new /\
               forall k, In k new -> In k (keys pos4)) /\
  (exists new_edges new_nodes,
     Nx.edges (final_graph G0 pos4 2) = Nx.edges G0 ++ new_edges /\
     Nx.nodes (final_graph G0 pos4 2) = Nx.nodes G0 ++ new_nodes /\
     forall k, In k new_nodes <->
               ~ In k (Nx.nodes G0) /\
               exists u v, In (u, v) new_edges /\ (k = u \/ k = v)) /\
  (incl (keys pos4) (Nx.nodes G0) -> Nx.nodes (final_graph G0 pos4 2) = Nx.nodes G0).
Proof.
  assert (Hc : closed G0) by (intros u v []).
  split; [exact Hc|].
  destruct (frame G0 pos4 2) as (H1 & H2 & H3 & H4 & H5).
  exact (conj H1 (conj H2 (conj H3 (conj (H4 Hc) H5)))).
Defined.

(** ** C8 *)

Lemma complete_graph_witness :
  (well_formed pos4 /\ edgeless G4 /\ (2 <= length pos4)%nat) /\
  exists G',
    returns G4 pos4 (total_pairs pos4) G' /\
    (forall u v, In u (keys pos4) -> In v (keys pos4) -> u <> v ->
                 Nx.has_edge G' u v = true) /\
    Nx.number_of_edges G' = total_pairs pos4 /\
    (forall u v, In (u, v) (Nx.edges G') -> In u (keys pos4) /\ In v (keys pos4)).
Proof.
  assert (Hd : well_formed pos4) by distinct_keys.
  assert (HG : edgeless G4) by reflexivity.
  assert (HN : (2 <= length pos4)%nat) by (simpl; lia).
  split; [repeat split; assumption|].
  exact (complete_graph G4 pos4 Hd HG HN).
Defined.

(** ** C9 *)

(** C9: for four distinct nodes [a] at (0,0), [b] at (1,0), [c] at (0,1)
    and [e] at (10,10), given in any order, and target 2, the call on an
    edge-less graph returns a graph with exactly two edges, one between [a]
    and [b] and one between [a] and [c], each at distance 1.0; no edge
    touches [e].  The squares taken are those of 0, 1, 9 and 10 and their
    opposites: they are exact, so that [x ** 2] is the product; the same
    holds for every square that is exact on these four numbers
    ([scenario_exact_squares]). *)
Theorem scenario (a b c e : node) (G : Nx.Graph) (d : pos_dict) :
  NoDup [a; b; c; e] -> edgeless G -> Permutation d (scenario_pos a b c e) ->
  exists G',
    returns G d 2 G' /\
    Nx.number_of_edges G' = 2 /\
    Nx.has_edge G' a b = true /\ Nx.has_edge G' a c = true /\
    pair_distance d a b = Some 1%float /\ pair_distance d a c = Some 1%float /\
    (forall u v, In (u, v) (Nx.edges G') ->
       (u, v) = (a, b) \/ (u, v) = (b, a) \/ (u, v) = (a, c) \/ (u, v) = (c, a)) /\
    (forall u v, In (u, v) (Nx.edges G') -> u <> e /\ v <> e).
Proof.
  intros Hids HG Hp. apply scenario_exact_squares; try assumption.
  intros x _. reflexivity.
Qed.

Lemma scenario_witness :
  (NoDup [1; 2; 3; 4] /\ edgeless G4 /\ Permutation pos4 (scenario_pos 1 2 3 4)) /\
  exists G',
    returns G4 pos4 2 G' /\
    Nx.number_of_edges G' = 2 /\
    Nx.has_edge G' 1 2 = true /\ Nx.has_edge G' 1 3 = true /\
    pair_distance pos4 1 2 = Some 1%float /\ pair_distance pos4 1 3 = Some 1%float /\
    (forall u v, In (u, v) (Nx.edges G') ->
       (u, v) = (1, 2) \/ (u, v) = (2, 1) \/ (u, v) = (1, 3) \/ (u, v) = (3, 1)) /\
    (forall u v, In (u, v) (Nx.edges G') -> u <> 4 /\ v <> 4).
Proof.
  assert (Hids : NoDup [1; 2; 3; 4]) by (repeat (constructor; [simpl; lia|]); constructor).
  assert (HG : edgeless G4) by reflexivity.
  assert (Hp : Permutation pos4 (scenario_pos 1 2 3 4)) by apply Permutation_refl.
  split; [repeat split; assumption|].
  exact (scenario 1 2 3 4 G4 pos4 Hids HG Hp).
Defined.

(** ** C10 *)

Lemma negative_target_witness :
  -3 < 0 /\ call G4 pos4 (-3) = (Ok G4, mkHeap G4 pos4).
Proof.
  assert (H : -3 < 0) by lia.
  split; [exact H|]. exact (negative_target G4 pos4 (-3) H).
Defined.

(** ** The test of the model *)

Lemma test_model_returns_witness :
  (well_formed pos4 /\ graph_wf G_square /\ placed G_square pos4) /\
  exists G_testing printed,
    test_model G_square pos4 = Ok (G_testing, printed) /\
    Nx.number_of_edges G_testing = Nx.number_of_edges G_square /\
    Nx.number_of_edges G_square <= total_pairs pos4 /\
    (forall k, In k (Nx.nodes G_square) -> In k (Nx.nodes G_testing)).
Proof.
  assert (H1 : well_formed pos4) by distinct_keys.
  assert (Hw : graph_wf G_square) by square_wf.
  assert (Hp : placed G_square pos4) by square_placed.
  split; [exact (conj H1 (conj Hw Hp))|].
  exact (test_model_returns G_square pos4 H1 Hw Hp).
Defined.

Lemma test_model_printed_witness :
  (well_formed pos4 /\ graph_wf G_square /\ placed G_square pos4 /\
   incl (keys pos4) (Nx.nodes G_square) /\
   real_coordinates pos4 = true /\
   test_model G_square pos4 = Ok (Nx.mkGraph [4; 3; 2; 1] [(1, 2); (1, 3)], true)) /\
  Nx.nodes (Nx.mkGraph [4; 3; 2; 1] [(1, 2); (1, 3)]) = Nx.nodes G_square /\
  (true = true <->
   forall u v, Nx.has_edge G_square u v
               = Nx.has_edge (Nx.mkGraph [4; 3; 2; 1] [(1, 2); (1, 3)]) u v) /\
  (true = true <->
   forall u v, In (u, v) (Nx.edges G_square) ->
               In (u, v) (firstn (length (Nx.edges G_square)) (ordered_pairs pos4)) \/
               In (v, u) (firstn (length (Nx.edges G_square)) (ordered_pairs pos4))).
Proof.
  assert (H1 : well_formed pos4) by distinct_keys.
  assert (H2 : incl (keys pos4) (Nx.nodes G_square))
    by (intros k Hk; simpl in *; intuition).
  assert (H3 : test_model G_square pos4
               = Ok (Nx.mkGraph [4; 3; 2; 1] [(1, 2); (1, 3)], true))
    by (vm_compute; reflexivity).
  assert (Hw : graph_wf G_square) by square_wf.
  assert (Hp : placed G_square pos4) by square_placed.
  assert (Hr : real_coordinates pos4 = true) by reflexivity.
  split; [exact (conj H1 (conj Hw (conj Hp (conj H2 (conj Hr H3)))))|].
  exact (test_model_printed G_square pos4 _ _ H1 Hw Hp H2 Hr H3).
Defined.

(** ** More on the reconstructor *)

Lemma tie_break_witness :
  (well_formed pos4 /\ edgeless G4 /\ real_coordinates pos4 = true /\
   precedes (1, 2) (1, 3) (candidate_pairs pos4) /\
   pair_distance pos4 (fst (1, 2)) (snd (1, 2)) = Some 1%float /\
   pair_distance pos4 (fst (1, 3)) (snd (1, 3)) = Some 1%float /\
   PrimFloat.ltb 1 1 = false /\
   In (1, 3) (Nx.edges (final_graph G4 pos4 2))) /\
  precedes (1, 2) (1, 3) (Nx.edges (final_graph G4 pos4 2)).
Proof.
  assert (H1 : well_formed pos4) by distinct_keys.
  assert (H2 : edgeless G4) by reflexivity.
  assert (H3 : precedes (1, 2) (1, 3) (candidate_pairs pos4))
    by (exists [], [(1, 3); (1, 4); (2, 3); (2, 4); (3, 4)]; split;
        [reflexivity|simpl; auto]).
  assert (H4 : pair_distance pos4 (fst (1, 2)) (snd (1, 2)) = Some 1%float)
    by reflexivity.
  assert (H5 : pair_distance pos4 (fst (1, 3)) (snd (1, 3)) = Some 1%float)
    by reflexivity.
  assert (H6 : PrimFloat.ltb 1 1 = false) by reflexivity.
  assert (H7 : In (1, 3) (Nx.edges (final_graph G4 pos4 2)))
    by (vm_compute; auto).
  assert (Hr : real_coordinates pos4 = true) by reflexivity.
  split; [repeat split; assumption|].
  exact (tie_break G4 pos4 2 (1, 2) (1, 3) 1%float 1%float H1 H2 Hr H3 H4 H5 H6 H7).
Defined.

Lemma second_call_witness :
  final_graph (final_graph G4 pos4 2) pos4 2 = final_graph G4 pos4 2 /\
  (forall e, raises (final_graph G4 pos4 2) pos4 2 e <-> raises G4 pos4 2 e) /\
  (returns (final_graph G4 pos4 2) pos4 2 (final_graph G4 pos4 2) <->
   returns G4 pos4 2 (final_graph G4 pos4 2)).
Proof. exact (second_call G4 pos4 2). Defined.

Lemma only_index_error_witness :
  raises G4 pos4 7 IndexError /\ IndexError = IndexError /\ total_pairs pos4 < 7.
Proof.
  assert (H : raises G4 pos4 7 IndexError) by reflexivity.
  split; [exact H|]. exact (only_index_error G4 pos4 7 IndexError H).
Defined.

Lemma nearer_pairs_joined_witness :
  (well_formed pos4 /\ edgeless G4 /\ real_coordinates pos4 = true /\
   Nx.has_edge (final_graph G4 pos4 3) 2 3 = true /\
   In 1 (keys pos4) /\ In 2 (keys pos4) /\ 1 <> 2 /\
   pair_distance pos4 2 3 = Some (PrimFloat.sqrt 2) /\
   pair_distance pos4 1 2 = Some 1%float /\
   PrimFloat.ltb 1 (PrimFloat.sqrt 2) = true) /\
  Nx.has_edge (final_graph G4 pos4 3) 1 2 = true.
Proof.
  assert (H1 : well_formed pos4) by distinct_keys.
  assert (H2 : edgeless G4) by reflexivity.
  assert (H3 : real_coordinates pos4 = true) by reflexivity.
  assert (H4 : Nx.has_edge (final_graph G4 pos4 3) 2 3 = true) by reflexivity.
  assert (H5 : In 1 (keys pos4)) by (simpl; auto).
  assert (H6 : In 2 (keys pos4)) by (simpl; auto).
  assert (H7 : 1 <> 2) by lia.
  assert (H8 : pair_distance pos4 2 3 = Some (PrimFloat.sqrt 2)) by reflexivity.
  assert (H9 : pair_distance pos4 1 2 = Some 1%float) by reflexivity.
  assert (H10 : PrimFloat.ltb 1 (PrimFloat.sqrt 2) = true) by reflexivity.
  split; [repeat split; assumption|].
  exact (nearer_pairs_joined G4 pos4 3 2 3 1 2 _ _ H1 H2 H3 H4 H5 H6 H7 H8 H9 H10).
Defined.
